(** * Ballot session controller of the online voting portal

    A shallow embedding of the [Voting] component and its revisions
    (the repository keeps several near-duplicate versions of
    [components/Voting.tsx]), followed by the properties of the ballot
    session: selection store, page navigation and submission.

    Conventions of the embedding.
    - A React state variable is a field of the record [Session]; a
      [setX(prev => ...)] updater is a function on that record.
    - [Selections = Record<string, number | null>] is the association
      list of its own properties in insertion order; [None] is the JS
      value [null], and a lookup that finds no own key yields neither
      [null] nor a number ([undefined], as a rule).
    - [Set<string>] is [gset string]: the component only ever uses
      [has], [add], [delete] and [size].
    - Times are milliseconds since the epoch ([Date.prototype.valueOf]);
      an invalid [Date] is [None] (its time value is [NaN]).
    - The Supabase client is an environment that answers the queries; the
      writes a handler issues are collected in a trace. A run of the
      submit handler reads [selections], [positions] and [voter] from the
      render in which it was started, so it is one transition. *)

From Stdlib Require Import ZArith NArith String Ascii List Lia.
From stdpp Require Import base list gmap sets strings sorting.
Import ListNotations.

Local Open Scope Z_scope.
Local Open Scope string_scope.
Local Open Scope list_scope.

(** ** JavaScript objects used as dictionaries *)

Module JS.

(** [number | null] *)
Abbreviation Value := (option Z).

(** An object with string keys: its own properties in creation order.
    Every object of the component is built from [{}] by [obj_set] and
    [obj_assign_null], which never repeat a key. *)
Abbreviation Obj := (list (string * Value)).

(** [o[k]], read from the own properties: [Some None] is [null], [None]
    is what a read without own property yields, [undefined] (or, for
    ["__proto__"] on an object that inherits from [Object.prototype],
    that prototype): a value that is neither [null] nor a number. *)
Fixpoint obj_get (o : Obj) (k : string) : option Value :=
  match o with
  | [] => None
  | (k', v) :: o' => if decide (k' = k) then Some v else obj_get o' k
  end.

(** [{ ...o, [k]: v }]: an existing property keeps its place, a new one
    is created after all the others. *)
Fixpoint obj_set (o : Obj) (k : string) (v : Value) : Obj :=
  match o with
  | [] => [(k, v)]
  | (k', v') :: o' =>
      if decide (k' = k) then (k', v) :: o' else (k', v') :: obj_set o' k v
  end.

(** [o[k] = null] by assignment, on an object and the flag telling
    whether it has lost its prototype. The assignment is [obj_set] for
    every key but ["__proto__"]: on an object that inherits from
    [Object.prototype] it runs the inherited setter, which creates no
    own property and clears the prototype. *)
Definition obj_assign_null (ob : Obj * bool) (k : string) : Obj * bool :=
  if decide (k = "__proto__") then
    if ob.2 then (obj_set ob.1 k None, true) else (ob.1, true)
  else (obj_set ob.1 k None, ob.2).

Definition keys (o : Obj) : list string := o.*1.

(** [x !== null] for [x = o[k]]: [undefined] and numbers pass. *)
Definition not_null (x : option Value) : bool :=
  match x with
  | Some None => false
  | _ => true
  end.

(** [x ?? null] *)
Definition nullish_null (x : option Value) : Value :=
  match x with
  | Some (Some n) => Some n
  | _ => None
  end.

(** Truthiness of a string: every string but the empty one. *)
Definition truthy (s : string) : bool :=
  match s with
  | EmptyString => false
  | _ => true
  end.

(** *** Property enumeration order

    [Object.values] and [Object.entries] list the properties whose key is
    a canonical array index (a decimal numeral below [2^32 - 1] without
    leading zero) first, in ascending numeric order, then the other
    string keys in creation order. *)

Definition digit_of (a : ascii) : option N :=
  let n := N_of_ascii a in
  if ((48 <=? n) && (n <=? 57))%N then Some (n - 48)%N else None.

Fixpoint digits_value (acc : N) (s : string) : option N :=
  match s with
  | EmptyString => Some acc
  | String a r =>
      match digit_of a with
      | Some d => digits_value (acc * 10 + d)%N r
      | None => None
      end
  end.

Definition array_index (k : string) : option N :=
  match k with
  | EmptyString => None
  | String "0" (String _ _) => None
  | _ =>
      match digits_value 0%N k with
      | Some n => if (n <? 2 ^ 32 - 1)%N then Some n else None
      | None => None
      end
  end.

Definition index_le (x y : N * (string * Value)) : Prop := (x.1 <= y.1)%N.

#[export] Instance index_le_dec x y : Decision (index_le x y).
Proof. unfold index_le. apply _. Defined.

Definition indexed (o : Obj) : list (N * (string * Value)) :=
  omap (λ kv, (λ n, (n, kv)) <$> array_index kv.1) o.

Definition named (o : Obj) : Obj :=
  filter (λ kv, array_index kv.1 = None) o.

Definition Object_entries (o : Obj) : Obj :=
  (merge_sort index_le (indexed o)).*2 ++ named o.

Definition Object_values (o : Obj) : list Value := (Object_entries o).*2.

(** [.filter((val): val is number => val !== null)] on a list of values *)
Definition filter_number (vs : list Value) : list Z := omap id vs.

End JS.

(** ** Data model ([types.ts]) *)

Module Voter.
Record t : Type := mk { id : Z; username : string; has_voted : bool }.
End Voter.

Module Candidate.
Record t : Type := mk {
  id : Z;
  name : string;
  position : string;
  photo_url : string;
  created_at : string }.
End Candidate.

Module Vote.
Record t : Type := mk { voter_id : Z; candidate_id : Z }.
End Vote.

Module Settings.
(** A row of [select('value')]. The field holds what [new Date(value)]
    evaluates to: [Some t] for a time value, [None] for an invalid date. *)
Record row : Type := mk { value : option Z }.
End Settings.

(** [type Selections = Record<string, number | null>] *)
Abbreviation Selections := JS.Obj.

(** The state variables of the [Voting] component. The single-page
    revision has no [currentPage] and no [skipped]; only the revisions
    with a summary dialog use [showSummary] and [submitTime]. *)
Record Session : Type := mkSession {
  candidates : list Candidate.t;
  positions : list string;
  selections : Selections;
  currentPage : nat;
  isLoading : bool;
  isSubmitting : bool;
  error : option string;
  skipped : gset string;
  showSummary : bool;
  submitTime : option Z }.

(** The initial [useState] values. *)
Definition mount : Session :=
  {| candidates := []; positions := []; selections := []; currentPage := 0;
     isLoading := true; isSubmitting := false; error := None; skipped := ∅;
     showSummary := false; submitTime := None |}.

Definition setCandidates (x : list Candidate.t) (s : Session) : Session :=
  mkSession x (positions s) (selections s) (currentPage s) (isLoading s)
    (isSubmitting s) (error s) (skipped s) (showSummary s) (submitTime s).

Definition setPositions (x : list string) (s : Session) : Session :=
  mkSession (candidates s) x (selections s) (currentPage s) (isLoading s)
    (isSubmitting s) (error s) (skipped s) (showSummary s) (submitTime s).

Definition setSelections (f : Selections → Selections) (s : Session) : Session :=
  mkSession (candidates s) (positions s) (f (selections s)) (currentPage s)
    (isLoading s) (isSubmitting s) (error s) (skipped s) (showSummary s)
    (submitTime s).

Definition setCurrentPage (f : nat → nat) (s : Session) : Session :=
  mkSession (candidates s) (positions s) (selections s) (f (currentPage s))
    (isLoading s) (isSubmitting s) (error s) (skipped s) (showSummary s)
    (submitTime s).

Definition setIsLoading (x : bool) (s : Session) : Session :=
  mkSession (candidates s) (positions s) (selections s) (currentPage s) x
    (isSubmitting s) (error s) (skipped s) (showSummary s) (submitTime s).

Definition setIsSubmitting (x : bool) (s : Session) : Session :=
  mkSession (candidates s) (positions s) (selections s) (currentPage s)
    (isLoading s) x (error s) (skipped s) (showSummary s) (submitTime s).

Definition setError (x : option string) (s : Session) : Session :=
  mkSession (candidates s) (positions s) (selections s) (currentPage s)
    (isLoading s) (isSubmitting s) x (skipped s) (showSummary s)
    (submitTime s).

Definition setSkipped (f : gset string → gset string) (s : Session) : Session :=
  mkSession (candidates s) (positions s) (selections s) (currentPage s)
    (isLoading s) (isSubmitting s) (error s) (f (skipped s)) (showSummary s)
    (submitTime s).

Definition setShowSummary (x : bool) (s : Session) : Session :=
  mkSession (candidates s) (positions s) (selections s) (currentPage s)
    (isLoading s) (isSubmitting s) (error s) (skipped s) x (submitTime s).

Definition setSubmitTime (x : option Z) (s : Session) : Session :=
  mkSession (candidates s) (positions s) (selections s) (currentPage s)
    (isLoading s) (isSubmitting s) (error s) (skipped s) (showSummary s) x.

(** ** The Ballot Store as seen by the component *)

Module Supabase.

(** The [{ data, error }] object a query resolves to. *)
Record Response (A : Type) : Type := mkResponse {
  data : option A;
  error : option string }.
Arguments mkResponse {A} _ _.
Arguments data {A} _.
Arguments error {A} _.

(** The two writes of the component: [from('votes').insert(votes)] and
    [from('voters').update({ has_voted: true }).eq('id', id)]. *)
Inductive Write : Type :=
  | InsertVotes (votes : list Vote.t)
  | MarkVoted (voter_id : Z).

(** [.single()]: the only row, or [null] with an error when the result
    does not consist of exactly one row. *)
Definition single {A : Type} (r : Response (list A)) : Response A :=
  match data r, error r with
  | Some [x], None => mkResponse (Some x) None
  | _, Some e => mkResponse None (Some e)
  | _, None => mkResponse None (Some "PGRST116")
  end.

End Supabase.

(** What the surroundings answer during one run of the submit handler:
    the clock read by the [new Date()] of the deadline test, the rows of
    [from('settings').select('value').eq('key', 'voting_deadline')], the
    [error] field of each write ([None] when the store accepts it), and
    the clock read by the [new Date()] of the success continuation of
    [part_004]. *)
Record World : Type := mkWorld {
  now : Z;
  voting_deadline : Supabase.Response (list Settings.row);
  votes_insert : list Vote.t → option string;
  voters_update : Z → option string;
  now_submitted : Z }.

(** How a run of the submit handler ends. *)
Inductive Outcome : Type :=
  | Submitted                      (* the success continuation ran *)
  | DeadlineExpired                (* alert('Voting has ended...'); return *)
  | IncompleteBallot               (* alert('Please complete ...'); return *)
  | SubmissionError (msg : string) (* a thrown error reached the catch block *).

(** ** The handler monad: early exit and a trace of writes *)

Definition Handler (A : Type) : Type :=
  list Supabase.Write → (Outcome + A) * list Supabase.Write.

#[export] Instance Handler_ret : MRet Handler :=
  λ A x w, (inr x, w).

#[export] Instance Handler_bind : MBind Handler :=
  λ A B f m w,
    match m w with
    | (inl o, w') => (inl o, w')
    | (inr x, w') => f x w'
    end.

(** [return] out of the handler (after an [alert]) *)
Definition leave {A : Type} (o : Outcome) : Handler A :=
  λ w, (inl o, w).

(** [throw err] inside the [try] block *)
Definition throw {A : Type} (msg : string) : Handler A :=
  leave (SubmissionError msg).

(** [if (err) throw err;] *)
Definition throw_if (err : option string) : Handler unit :=
  match err with
  | Some msg => throw msg
  | None => mret tt
  end.

Definition leave_if (b : bool) (o : Outcome) : Handler unit :=
  if b then leave o else mret tt.

Definition insertVotes (W : World) (votes : list Vote.t) : Handler (option string) :=
  λ w, (inr (votes_insert W votes), w ++ [Supabase.InsertVotes votes]).

Definition markVoted (W : World) (voter_id : Z) : Handler (option string) :=
  λ w, (inr (voters_update W voter_id), w ++ [Supabase.MarkVoted voter_id]).

Definition run (h : Handler Outcome) : Outcome * list Supabase.Write :=
  match h [] with
  | (inl o, w) => (o, w)
  | (inr o, w) => (o, w)
  end.

(** [new Date() > new Date(value)]: false when the date is invalid. *)
Definition after (t : Z) (d : option Z) : bool :=
  match d with
  | Some d => bool_decide (d < t)
  | None => false
  end.

(** [[...new Set(xs)]]: the distinct elements in order of first
    occurrence. *)
Definition Set_spread (xs : list string) : list string :=
  foldl (λ acc x, if decide (x ∈ acc) then acc else acc ++ [x]) [] xs.

(** ** Parts shared by the revisions

    [handleSelectCandidate] / [selectCandidate], [handleNext] / [next],
    [handleBack] / [back] and the derived values [currentPosition],
    [selectedCount], [isLastPage], [isFirstPage] are written the same way
    in every paginated revision; [loadCandidates] is shared by
    [part_000], [part_002] and [part_004]. *)

(** [uniquePositions.reduce((acc, pos) => { acc[pos] = null; return acc; }, {})] *)
Definition initialSelections (uniquePositions : list string) : Selections :=
  (foldl JS.obj_assign_null ([], false) uniquePositions).1.

Definition loadCandidates (r : Supabase.Response (list Candidate.t))
    (s : Session) : Session :=
  let s := setError None (setIsLoading true s) in
  let s :=
    match Supabase.error r with
    | Some msg => setError (Some ("Error loading candidates: " ++ msg)%string) s
    | None =>
        match Supabase.data r with
        | Some data =>
            let uniquePositions := Set_spread (Candidate.position <$> data) in
            setSelections (λ _, initialSelections uniquePositions)
              (setPositions uniquePositions (setCandidates data s))
        | None => s
        end
    end in
  setIsLoading false s.

Definition handleSelectCandidate (position : string) (candidateId : Z)
    (s : Session) : Session :=
  setSkipped (λ prev, prev ∖ {[position]})
    (setSelections (λ prev, JS.obj_set prev position (Some candidateId)) s).

Definition handleNext (s : Session) : Session :=
  if bool_decide (currentPage s < length (positions s))%nat
  then setCurrentPage S s else s.

Definition handleBack (s : Session) : Session :=
  if bool_decide (0 < currentPage s)%nat
  then setCurrentPage pred s else s.

(** [positions[currentPage]], [undefined] past the end *)
Definition currentPosition (s : Session) : option string :=
  positions s !! currentPage s.

Definition selectedCount (s : Session) : nat :=
  length (filter (λ v, v ≠ None) (JS.Object_values (selections s))).

Definition isLastPage (s : Session) : bool :=
  bool_decide (currentPage s = length (positions s)).

Definition isFirstPage (s : Session) : bool :=
  bool_decide (currentPage s = 0%nat).

(** The deadline test of the revisions that read the rows as an array:
    [settings && settings.length > 0 && new Date() > new Date(settings[0].value)] *)
Definition votingEnded (W : World) (settings : option (list Settings.row)) : bool :=
  match settings with
  | Some (row :: _) => after (now W) (Settings.value row)
  | _ => false
  end.

(** The body of the [try] block of the strict revisions, up to the
    success continuation: deadline, completeness, insert, update. *)
Definition submitAll (voter : Voter.t) (W : World) (s : Session) : Handler Outcome :=
  let r := voting_deadline W in
  throw_if (Supabase.error r);;
  leave_if (votingEnded W (Supabase.data r)) DeadlineExpired;;
  let filledPositions := JS.filter_number (JS.Object_values (selections s)) in
  leave_if (negb (bool_decide (length filledPositions = length (positions s))))
    IncompleteBallot;;
  let votes := (λ candidateId, Vote.mk (Voter.id voter) candidateId) <$> filledPositions in
  voteError ← insertVotes W votes;
  throw_if voteError;;
  updateError ← markVoted W (Voter.id voter);
  throw_if updateError;;
  mret Submitted.

(** ** [part_000]: paginated ballot, strict submission *)

Module Part000.

(** Unskipping writes [s[position] ?? null] back. In the running
    component the read is of an own property: a position is marked
    skipped only by the other branch, which stores [null] under it. *)
Definition toggleSkip (position : string) (s : Session) : Session :=
  if decide (position ∈ skipped s) then
    setSelections
      (λ sel, JS.obj_set sel position (JS.nullish_null (JS.obj_get sel position)))
      (setSkipped (λ prev, prev ∖ {[position]}) s)
  else
    setSelections (λ sel, JS.obj_set sel position None)
      (setSkipped (λ prev, prev ∪ {[position]}) s).

(** [currentPosition ? selections[currentPosition] !== null : true] *)
Definition isPositionSelected (s : Session) : bool :=
  match currentPosition s with
  | Some p =>
      if JS.truthy p then JS.not_null (JS.obj_get (selections s) p) else true
  | None => true
  end.

(** [disabled={isSubmitting || selectedCount < positions.length}] *)
Definition submitDisabled (s : Session) : bool :=
  isSubmitting s || bool_decide (selectedCount s < length (positions s))%nat.

Definition handleSubmit (voter : Voter.t) (W : World) (s : Session)
    : Session * Outcome * list Supabase.Write :=
  let '(o, w) := run (submitAll voter W s) in
  let s := setError None (setIsSubmitting true s) in
  let s :=
    match o with
    | SubmissionError msg =>
        setError (Some ("Error submitting vote: " ++ msg)%string) s
    | _ => s
    end in
  (setIsSubmitting false s, o, w).

End Part000.

(** ** [part_001]: paginated ballot, permissive submission *)

Module Part001.

(** This revision reads [data.map] without testing [data]: a [null]
    result throws inside the [try] block. *)
Definition loadCandidates (r : Supabase.Response (list Candidate.t))
    (s : Session) : Session :=
  let s := setError None (setIsLoading true s) in
  let s :=
    match Supabase.error r, Supabase.data r with
    | Some msg, _ => setError (Some ("Failed to load candidates: " ++ msg)%string) s
    | None, None =>
        setError (Some "Failed to load candidates: Cannot read properties of null") s
    | None, Some data =>
        let uniquePositions := Set_spread (Candidate.position <$> data) in
        setSelections (λ _, initialSelections uniquePositions)
          (setCandidates data (setPositions uniquePositions s))
    end in
  setIsLoading false s.

Definition selectCandidate (pos : string) (id : Z) (s : Session) : Session :=
  handleSelectCandidate pos id s.

Definition toggleSkip (pos : string) (s : Session) : Session :=
  if decide (pos ∈ skipped s) then
    setSkipped (λ prev, prev ∖ {[pos]}) s
  else
    setSelections (λ sel, JS.obj_set sel pos None)
      (setSkipped (λ prev, prev ∪ {[pos]}) s).

(** [currentPos ? selections[currentPos] !== null || skipped.has(currentPos) : true] *)
Definition canProceed (s : Session) : bool :=
  match currentPosition s with
  | Some p =>
      if JS.truthy p
      then JS.not_null (JS.obj_get (selections s) p) || bool_decide (p ∈ skipped s)
      else true
  | None => true
  end.

(** [disabled={isSubmitting}] *)
Definition submitDisabled (s : Session) : bool := isSubmitting s.

(** [settings && new Date() > new Date(settings.value)] on the [.single()] row *)
Definition votingEnded (W : World) (settings : option Settings.row) : bool :=
  match settings with
  | Some row => after (now W) (Settings.value row)
  | None => false
  end.

Definition submit (voter : Voter.t) (W : World) (s : Session) : Handler Outcome :=
  let settings := Supabase.data (Supabase.single (voting_deadline W)) in
  leave_if (votingEnded W settings) DeadlineExpired;;
  let votes :=
    omap (λ '(_, id), (λ id, Vote.mk (Voter.id voter) id) <$> id)
      (JS.Object_entries (selections s)) in
  (if bool_decide (0 < length votes)%nat
   then voteErr ← insertVotes W votes; throw_if voteErr
   else mret tt);;
  voterErr ← markVoted W (Voter.id voter);
  throw_if voterErr;;
  mret Submitted.

Definition submitVote (voter : Voter.t) (W : World) (s : Session)
    : Session * Outcome * list Supabase.Write :=
  let '(o, w) := run (submit voter W s) in
  (setIsSubmitting false (setError None (setIsSubmitting true s)), o, w).

End Part001.

(** ** [part_002], first component: single-page ballot, no skip *)

Module Part002.

Definition handleSelectCandidate (position : string) (candidateId : Z)
    (s : Session) : Session :=
  setSelections (λ prev, JS.obj_set prev position (Some candidateId)) s.

Definition handleSubmit (voter : Voter.t) (W : World) (s : Session)
    : Session * Outcome * list Supabase.Write :=
  let '(o, w) := run (submitAll voter W s) in
  let s := setError None (setIsSubmitting true s) in
  let s :=
    match o with
    | SubmissionError msg =>
        setError (Some ("Error submitting vote: " ++ msg)%string) s
    | _ => s
    end in
  (setIsSubmitting false s, o, w).

End Part002.

(** ** [part_004]: paginated ballot, strict submission, summary dialog *)

Module Part004.

Definition toggleSkip (position : string) (s : Session) : Session :=
  Part000.toggleSkip position s.

(** [currentPosition
       ? selections[currentPosition] !== null || skipped.has(currentPosition)
       : true] *)
Definition isPositionSelected (s : Session) : bool :=
  Part001.canProceed s.

Definition submitDisabled (s : Session) : bool := Part000.submitDisabled s.

(** The success continuation stores the clock, read anew, in
    [submitTime] and sets [showSummary]; the catch block only alerts.
    (The summary dialog itself is not part of the model.) *)
Definition handleSubmit (voter : Voter.t) (W : World) (s : Session)
    : Session * Outcome * list Supabase.Write :=
  let '(o, w) := run (submitAll voter W s) in
  let s := setError None (setIsSubmitting true s) in
  let s :=
    match o with
    | Submitted =>
        setShowSummary true (setSubmitTime (Some (now_submitted W)) s)
    | _ => s
    end in
  (setIsSubmitting false s, o, w).

End Part004.

(** ** The controls of the paginated ballot

    Every paginated revision renders the same controls: nothing but a
    message while loading, after an error, or without positions; on a
    question page the candidates of the current position, the skip
    button, Back and Next; on the review page one Edit button per
    position, Back and the submit button. *)

Module UI.

Record Revision : Type := mkRevision {
  load : Supabase.Response (list Candidate.t) → Session → Session;
  select : string → Z → Session → Session;
  skip : string → Session → Session;
  nextEnabled : Session → bool;
  submitOff : Session → bool;
  submit : Voter.t → World → Session → Session * Outcome * list Supabase.Write }.

Inductive Event : Type :=
  | Fetched (r : Supabase.Response (list Candidate.t))
  | ClickCandidate (nth : nat)
  | ClickSkip
  | ClickNext
  | ClickBack
  | ClickEdit (idx : nat)
  | SubmitForm (W : World).

Definition rendersBallot (s : Session) : bool :=
  negb (isLoading s)
  && bool_decide (error s = None)
  && negb (bool_decide (length (positions s) = 0%nat)).

(** The session after the event, [None] when the control is not on
    screen or disabled. [ClickCandidate n] is a click on the option of
    [candidates[n]], shown when its position is the current one. *)
Definition step (R : Revision) (voter : Voter.t) (e : Event) (s : Session)
    : option Session :=
  match e with
  | Fetched r => if isLoading s then Some (load R r s) else None
  | ClickCandidate n =>
      if rendersBallot s && negb (isLastPage s) then
        c ← candidates s !! n;
        if bool_decide (currentPosition s = Some (Candidate.position c))
        then Some (select R (Candidate.position c) (Candidate.id c) s)
        else None
      else None
  | ClickSkip =>
      if rendersBallot s && negb (isLastPage s) then
        p ← currentPosition s; Some (skip R p s)
      else None
  | ClickNext =>
      if rendersBallot s && negb (isLastPage s) && nextEnabled R s
      then Some (handleNext s) else None
  | ClickBack =>
      if rendersBallot s && negb (isFirstPage s)
      then Some (handleBack s) else None
  | ClickEdit idx =>
      if rendersBallot s && isLastPage s
         && bool_decide (idx < length (positions s))%nat
      then Some (setCurrentPage (λ _, idx) s) else None
  | SubmitForm W =>
      if rendersBallot s && isLastPage s && negb (submitOff R s)
      then Some (submit R voter W s).1.1 else None
  end.

Inductive reachable (R : Revision) (voter : Voter.t) : Session → Prop :=
  | reach_mount : reachable R voter mount
  | reach_step e s s' :
      reachable R voter s → step R voter e s = Some s' → reachable R voter s'.

(** Running a list of events, stopping at the first one that is not
    available. *)
Fixpoint play (R : Revision) (voter : Voter.t) (es : list Event) (s : Session)
    : option Session :=
  match es with
  | [] => Some s
  | e :: es => s' ← step R voter e s; play R voter es s'
  end.

End UI.

Definition part000 : UI.Revision :=
  UI.mkRevision loadCandidates handleSelectCandidate Part000.toggleSkip
    Part000.isPositionSelected Part000.submitDisabled Part000.handleSubmit.

Definition part001 : UI.Revision :=
  UI.mkRevision Part001.loadCandidates Part001.selectCandidate Part001.toggleSkip
    Part001.canProceed Part001.submitDisabled Part001.submitVote.

Definition part004 : UI.Revision :=
  UI.mkRevision loadCandidates handleSelectCandidate Part004.toggleSkip
    Part004.isPositionSelected Part004.submitDisabled Part004.handleSubmit.

(** ** Vocabulary of the statements *)

(** Outcome and writes of a run of a submit handler, without the
    session it leaves behind. *)
Definition result (x : Session * Outcome * list Supabase.Write)
    : Outcome * list Supabase.Write := (x.1.2, x.2).

(** The selection store has exactly the positions as its keys, each
    once: what [loadCandidates] builds and the controls preserve when
    no position is labelled ["__proto__"]. *)
Definition keyed (s : Session) : Prop :=
  JS.keys (selections s) = positions s ∧ NoDup (positions s).

(** The entry of [p] holds a candidate. *)
Definition holds (s : Session) (p : string) (c : Z) : Prop :=
  JS.obj_get (selections s) p = Some (Some c).

(** Every position holds a candidate. *)
Definition complete (s : Session) : Prop :=
  ∀ p, p ∈ positions s → ∃ c, holds s p c.

(** Some position holds no candidate. *)
Definition lacking (s : Session) : Prop :=
  ∃ p, p ∈ positions s ∧ ∀ c, ¬ holds s p c.

(** One vote record per position that holds a candidate, in the order
    of the positions. *)
Definition ballot (voter : Voter.t) (s : Session) : list Vote.t :=
  omap (λ p, Vote.mk (Voter.id voter) <$> mjoin (JS.obj_get (selections s) p))
    (positions s).

(** The deadline query succeeded and yields no row. *)
Definition deadlineAbsent (W : World) : Prop :=
  Supabase.error (voting_deadline W) = None
  ∧ (Supabase.data (voting_deadline W) = None
     ∨ Supabase.data (voting_deadline W) = Some []).

(** The deadline query succeeded and the test on its first row does not
    fire: no row, an unreadable date, or a deadline not yet passed. *)
Definition deadlineOpen (W : World) : Prop :=
  Supabase.error (voting_deadline W) = None
  ∧ votingEnded W (Supabase.data (voting_deadline W)) = false.

(** A skipped position holds no candidate. *)
Definition exclusive (s : Session) : Prop :=
  ∀ p c, p ∈ skipped s → ¬ holds s p c.

(** The selection store against the positions: neither repeats an
    entry; apart from ["__proto__"] the own keys of the store are the
    positions, in their order; ["__proto__"] is an own key only if it
    is a position. *)
Definition owned (s : Session) : Prop :=
  NoDup (positions s)
  ∧ NoDup (JS.keys (selections s))
  ∧ filter (λ k, k ≠ "__proto__") (JS.keys (selections s))
    = filter (λ p, p ≠ "__proto__") (positions s)
  ∧ ("__proto__" ∈ JS.keys (selections s) → "__proto__" ∈ positions s).

Definition sound (s : Session) : Prop := owned s ∧ exclusive s.

(** A skipped position holds [null]. *)
Definition nulled (s : Session) : Prop :=
  ∀ p, p ∈ skipped s → JS.obj_get (selections s) p = Some None.

(** The entry of a position as the component stores it: the value in
    [selections] and the membership in [skipped]. *)
Definition entry (s : Session) (p : string) : option (option Z) * bool :=
  (JS.obj_get (selections s) p, bool_decide (p ∈ skipped s)).

(** What a strict handler answers to any ballot that is not complete. *)
Definition refusal (W : World) : Outcome * list Supabase.Write :=
  (match Supabase.error (voting_deadline W) with
   | Some msg => SubmissionError msg
   | None =>
       if votingEnded W (Supabase.data (voting_deadline W))
       then DeadlineExpired else IncompleteBallot
   end, []).

(** ** A small election, used for the concrete runs *)

Definition catalog : list Candidate.t :=
  [ Candidate.mk 1 "Ada" "Best Speaker" "ada.png" "2025-01-01";
    Candidate.mk 2 "Ben" "Best Speaker" "ben.png" "2025-01-02";
    Candidate.mk 3 "Cy" "Best Dish" "cy.png" "2025-01-03";
    Candidate.mk 4 "Di" "Best Dish" "di.png" "2025-01-04" ].

Definition fetched : Supabase.Response (list Candidate.t) :=
  Supabase.mkResponse (Some catalog) None.

Definition alice : Voter.t := Voter.mk 9 "alice" false.

(** A store that accepts every write, with the deadline at [deadline]
    and the clock at [t]. *)
Definition world (t : Z) (deadline : option Z) : World :=
  mkWorld t
    (Supabase.mkResponse
       (Some match deadline with
             | Some d => [Settings.mk (Some d)]
             | None => []
             end) None)
    (λ _, None) (λ _, None) t.

Definition session (R : UI.Revision) (es : list UI.Event) : Session :=
  default mount (UI.play R alice es mount).

(** Both questions answered, on the review page. *)
Definition answered : Session :=
  session part000
    [UI.Fetched fetched; UI.ClickCandidate 0; UI.ClickNext;
     UI.ClickCandidate 3; UI.ClickNext].

(** Only the first question answered. *)
Definition half : Session :=
  session part000 [UI.Fetched fetched; UI.ClickCandidate 0].

(** The first question skipped. *)
Definition skippedFirst : Session :=
  session part000 [UI.Fetched fetched; UI.ClickSkip].

(** In the permissive revision: first question answered, second one
    skipped, on the review page. *)
Definition partial : Session :=
  session part001
    [UI.Fetched fetched; UI.ClickCandidate 0; UI.ClickNext; UI.ClickSkip;
     UI.ClickNext].

(** In the permissive revision: both questions skipped, on the review
    page. *)
Definition allSkipped : Session :=
  session part001
    [UI.Fetched fetched; UI.ClickSkip; UI.ClickNext; UI.ClickSkip; UI.ClickNext].

(** ** Further parts of the sources

    The derived value [completedCount], the login form and the two
    revisions of the application shell. *)

(** [selectedCount + skipped.size] ([part_001], [part_002], [part_004]) *)
Definition completedCount (s : Session) : nat :=
  (selectedCount s + size (skipped s))%nat.

(** What the functions of a revision leave alone: the facts about
    [load], [select], [skip], [submit] and the Next gate that the
    invariants of the controls rest on. *)
Record Wired (R : UI.Revision) : Prop := mkWired {
  load_keeps : ∀ r s,
    currentPage (UI.load R r s) = currentPage s
    ∧ skipped (UI.load R r s) = skipped s
    ∧ isLoading (UI.load R r s) = false;
  select_keeps : ∀ p c s,
    positions (UI.select R p c s) = positions s
    ∧ currentPage (UI.select R p c s) = currentPage s
    ∧ isLoading (UI.select R p c s) = isLoading s
    ∧ skipped (UI.select R p c s) ⊆ skipped s;
  select_other : ∀ p c s q, q ≠ p → entry (UI.select R p c s) q = entry s q;
  skip_keeps : ∀ p s,
    positions (UI.skip R p s) = positions s
    ∧ currentPage (UI.skip R p s) = currentPage s
    ∧ isLoading (UI.skip R p s) = isLoading s
    ∧ skipped (UI.skip R p s) ⊆ skipped s ∪ {[p]};
  skip_other : ∀ p s q, q ≠ p → entry (UI.skip R p s) q = entry s q;
  submit_keeps : ∀ voter W s,
    positions (UI.submit R voter W s).1.1 = positions s
    ∧ currentPage (UI.submit R voter W s).1.1 = currentPage s
    ∧ isLoading (UI.submit R voter W s).1.1 = isLoading s
    ∧ skipped (UI.submit R voter W s).1.1 = skipped s
    ∧ selections (UI.submit R voter W s).1.1 = selections s;
  gate_local : ∀ s s',
    positions s = positions s' → currentPage s = currentPage s' →
    (∀ p, currentPosition s = Some p → entry s p = entry s' p) →
    UI.nextEnabled R s = UI.nextEnabled R s' }.

(** Page bounds and the skip marks of a session. *)
Definition tidy (s : Session) : Prop :=
  (isLoading s = true → s = mount)
  ∧ (currentPage s ≤ length (positions s))%nat
  ∧ (∀ p, p ∈ skipped s → p ∈ positions s).

(** The Next gate is open on every page before the current one. *)
Definition passed (R : UI.Revision) (s : Session) : Prop :=
  ∀ i, (i < currentPage s)%nat →
    UI.nextEnabled R (setCurrentPage (λ _, i) s) = true.

(** The order of [[...new Set(xs)]], by recursion on the list. *)
Fixpoint firstOccurrences (xs : list string) : list string :=
  match xs with
  | [] => []
  | x :: xs => x :: filter (λ y, y ≠ x) (firstOccurrences xs)
  end.

(** ** [components/Login.tsx] *)

Module Login.

Record State : Type := mkState {
  username : string;
  password : string;
  error : option string;
  isLoading : bool }.

Definition setError (x : option string) (s : State) : State :=
  mkState (username s) (password s) x (isLoading s).

Definition setIsLoading (x : bool) (s : State) : State :=
  mkState (username s) (password s) (error s) x.

(** A row of the deadline query as the login form reads it: the string
    [value] and what [new Date(value)] evaluates to. *)
Record DeadlineRow : Type := mkRow { value : string; date : option Z }.

(** The two queries of the form, in the order it may issue them. *)
Inductive Query : Type :=
  | SelectVoters (username password : string)
  | SelectDeadline.

(** The clock and the answers of the store during one run. *)
Record World : Type := mkWorld {
  now : Z;
  voters : string → string → Supabase.Response (list Voter.t);
  settings : Supabase.Response (list DeadlineRow) }.

(** How a run of [handleLogin] ends. *)
Inductive End : Type :=
  | LoggedIn (voter : Voter.t)  (* onLoginSuccess(voter) *)
  | Refused (msg : string)      (* setError(msg); return *)
  | Thrown (msg : string)       (* the catch block *).

Definition Steps (A : Type) : Type :=
  list Query → (End + A) * list Query.

#[export] Instance Steps_ret : MRet Steps :=
  λ A x q, (inr x, q).

#[export] Instance Steps_bind : MBind Steps :=
  λ A B f m q,
    match m q with
    | (inl e, q') => (inl e, q')
    | (inr x, q') => f x q'
    end.

Definition stop {A : Type} (e : End) : Steps A := λ q, (inl e, q).

Definition throw_if (err : option string) : Steps unit :=
  match err with
  | Some msg => stop (Thrown msg)
  | None => mret tt
  end.

Definition selectVoters (W : World) (u p : string)
    : Steps (Supabase.Response (list Voter.t)) :=
  λ q, (inr (voters W u p), q ++ [SelectVoters u p]).

Definition selectDeadline (W : World)
    : Steps (Supabase.Response (list DeadlineRow)) :=
  λ q, (inr (settings W), q ++ [SelectDeadline]).

(** The [try] block. *)
Definition login (W : World) (s : State) : Steps End :=
  r ← selectVoters W (username s) (password s);
  throw_if (Supabase.error r);;
  match Supabase.data r with
  | None | Some [] =>
      stop (Refused "Invalid username or password. Please check your credentials.")
  | Some (voter :: _) =>
      d ← selectDeadline W;
      throw_if (Supabase.error d);;
      match Supabase.data d with
      | Some (row :: _) =>
          if JS.truthy (value row) && after (now W) (date row)
          then stop (Refused "Voting has ended. The deadline has passed.")
          else mret (LoggedIn voter)
      | _ => mret (LoggedIn voter)
      end
  end.

Definition run (h : Steps End) : End * list Query :=
  match h [] with
  | (inl e, q) => (e, q)
  | (inr e, q) => (e, q)
  end.

Definition handleLogin (W : World) (s : State) : State * End * list Query :=
  if negb (JS.truthy (username s)) || negb (JS.truthy (password s)) then
    let msg := "Please enter both username and password." in
    (setError (Some msg) s, Refused msg, [])
  else
    let '(e, q) := run (login W s) in
    let s := setIsLoading true (setError None s) in
    let s :=
      match e with
      | LoggedIn _ => s
      | Refused msg => setError (Some msg) s
      | Thrown msg => setError (Some ("Login error: " ++ msg)%string) s
      end in
    (setIsLoading false s, e, q).

End Login.

(** ** The application shell: [App.tsx] and its revision [part_005] *)

Module App.

Inductive View : Type := login | voting | thank_you.

Record State : Type := mkState { view : View; voter : option Voter.t }.

(** [useState<View>('login')], [useState<Voter | null>(null)] *)
Definition start : State := mkState login None.

Definition handleLoginSuccess (loggedInVoter : Voter.t) (s : State) : State :=
  mkState (if Voter.has_voted loggedInVoter then thank_you else voting)
    (Some loggedInVoter).

(** [setView('thank-you'); setVoter(null)] *)
Definition handleVoteSuccess (s : State) : State := mkState thank_you None.

Definition handleLogout (s : State) : State := mkState login None.

Inductive Screen : Type :=
  | LoginScreen
  | VotingScreen (voter : Voter.t)
  | ThankYouScreen.

(** The component returned by [renderView], and the state after the
    [setView('login')] of its fallback branch. *)
Definition renderView (s : State) : Screen * State :=
  match view s with
  | login => (LoginScreen, s)
  | voting =>
      match voter s with
      | Some v => (VotingScreen v, s)
      | None => (LoginScreen, mkState login (voter s))
      end
  | thank_you => (ThankYouScreen, s)
  end.

(** The callbacks the shell hands to the screens. *)
Inductive Event : Type :=
  | LoginSuccess (voter : Voter.t)
  | VoteSuccess
  | Logout.

(** [App.tsx]: [Login] gets [onLoginSuccess], [Voting] gets
    [onVoteSuccess] only, [ThankYou] gets nothing; [Header] is rendered
    above every screen with [showLogout={view !== 'login'}] and
    [onLogout={handleLogout}]. *)
Definition step (e : Event) (s : State) : option State :=
  let showLogout := match view s with login => false | _ => true end in
  let '(screen, s) := renderView s in
  match e, screen with
  | LoginSuccess v, LoginScreen => Some (handleLoginSuccess v s)
  | VoteSuccess, VotingScreen _ => Some (handleVoteSuccess s)
  | Logout, _ => if showLogout then Some (handleLogout s) else None
  | _, _ => None
  end.

Inductive reachable : State → Prop :=
  | reach_start : reachable start
  | reach_step e s s' : reachable s → step e s = Some s' → reachable s'.

End App.

(** [part_005] has the same state, [handleLoginSuccess], [handleLogout]
    and [renderView]; it differs in [handleVoteSuccess] and in the
    callbacks it hands out. *)
Module Part005.

(** [setView('thank-you')]: the voter is kept. *)
Definition handleVoteSuccess (s : App.State) : App.State :=
  App.mkState App.thank_you (App.voter s).

(** This revision renders no [Header] of its own: [Login] gets
    [onLoginSuccess], [Voting] gets [onVoteSuccess] and [onLogout],
    [ThankYou] gets [onLogout]. *)
Definition step (e : App.Event) (s : App.State) : option App.State :=
  let '(screen, s) := App.renderView s in
  match e, screen with
  | App.LoginSuccess v, App.LoginScreen => Some (App.handleLoginSuccess v s)
  | App.VoteSuccess, App.VotingScreen _ => Some (handleVoteSuccess s)
  | App.Logout, App.VotingScreen _ => Some (App.handleLogout s)
  | App.Logout, App.ThankYouScreen => Some (App.handleLogout s)
  | _, _ => None
  end.

Inductive reachable : App.State → Prop :=
  | reach_start : reachable App.start
  | reach_step e s s' : reachable s → step e s = Some s' → reachable s'.

End Part005.

(** The batch a strict handler may send: as many records as there are
    positions, each for the submitting voter and with a candidate that
    is stored in [selections]. *)
Definition wellFormedBatch (voter : Voter.t) (s : Session) (votes : list Vote.t)
    : Prop :=
  length votes = length (positions s)
  ∧ Forall (λ v, Vote.voter_id v = Voter.id voter
                 ∧ ∃ k, (k, Some (Vote.candidate_id v)) ∈ selections s) votes.

(** The view is ['voting'] only with a voter not flagged as having voted. *)
Definition guarded (s : App.State) : Prop :=
  App.view s = App.voting →
  ∃ v, App.voter s = Some v ∧ Voter.has_voted v = false.

(** The store as the login form sees it: one voter [alice] with password
    ["secret"], a deadline row at [200], the clock at [t]. *)
Definition loginWorld (t : Z) : Login.World :=
  Login.mkWorld t
    (λ u p,
       Supabase.mkResponse
         (Some (if bool_decide (u = "alice" ∧ p = "secret") then [alice] else []))
         None)
    (Supabase.mkResponse (Some [Login.mkRow "2025-06-01" (Some 200)]) None).

Definition desk : Login.World := loginWorld 100.

Definition late : Login.World := loginWorld 300.

(** ** Lemmas on objects *)

Section objects.
Implicit Types (o : JS.Obj) (k : string) (v : JS.Value).

Lemma obj_get_set_eq o k v : JS.obj_get (JS.obj_set o k v) k = Some v.
Proof.
  induction o as [|[k' v'] o IH]; simpl.
  - by rewrite decide_True.
  - destruct (decide (k' = k)) as [->|Hne]; simpl.
    + by rewrite decide_True.
    + by rewrite decide_False.
Qed.

Lemma obj_get_set_ne o k k' v :
  k ≠ k' → JS.obj_get (JS.obj_set o k v) k' = JS.obj_get o k'.
Proof.
  intros Hne. induction o as [|[k0 v0] o IH]; simpl.
  - by rewrite decide_False.
  - destruct (decide (k0 = k)) as [->|Hk]; simpl.
    + by rewrite !decide_False.
    + by rewrite IH.
Qed.

Lemma obj_get_None o k : JS.obj_get o k = None ↔ k ∉ JS.keys o.
Proof.
  unfold JS.keys. induction o as [|[k' v'] o IH]; simpl.
  - split; [intros _; apply not_elem_of_nil | done].
  - rewrite not_elem_of_cons. destruct (decide (k' = k)) as [->|Hk].
    + split; [done | by intros [? _]].
    + rewrite IH. split; [by intros ? | by intros [_ ?]].
Qed.

Lemma obj_set_same o k v : JS.obj_get o k = Some v → JS.obj_set o k v = o.
Proof.
  induction o as [|[k' v'] o IH]; simpl; [done|].
  destruct (decide (k' = k)) as [->|Hk].
  - by intros [= ->].
  - intros H. by rewrite IH.
Qed.

Lemma obj_set_new o k v : k ∉ JS.keys o → JS.obj_set o k v = o ++ [(k, v)].
Proof.
  unfold JS.keys. induction o as [|[k' v'] o IH]; simpl; [done|].
  rewrite not_elem_of_cons. intros [Hk Ho].
  rewrite decide_False by done. by rewrite IH.
Qed.

Lemma keys_obj_set_old o k v :
  k ∈ JS.keys o → JS.keys (JS.obj_set o k v) = JS.keys o.
Proof.
  unfold JS.keys. induction o as [|[k' v'] o IH]; simpl.
  - by intros ?%elem_of_nil.
  - destruct (decide (k' = k)) as [->|Hk]; simpl; [done|].
    rewrite elem_of_cons. intros [?|Hin]; [congruence|].
    f_equal. by apply IH.
Qed.

Lemma keys_obj_set_new o k v :
  k ∉ JS.keys o → JS.keys (JS.obj_set o k v) = JS.keys o ++ [k].
Proof. intros H. rewrite obj_set_new by done. unfold JS.keys. by rewrite fmap_app. Qed.

Lemma obj_set_NoDup o k v :
  NoDup (JS.keys o) → NoDup (JS.keys (JS.obj_set o k v)).
Proof.
  intros Hnd. destruct (decide (k ∈ JS.keys o)) as [Hin|Hout].
  - by rewrite keys_obj_set_old.
  - rewrite keys_obj_set_new by done. apply NoDup_app.
    split_and!; [done | | apply NoDup_singleton].
    by intros k' Hk' ->%list_elem_of_singleton.
Qed.

(** With distinct keys, reading every key in turn yields the values. *)
Lemma obj_get_keys o :
  NoDup (JS.keys o) → JS.obj_get o <$> JS.keys o = Some <$> o.*2.
Proof.
  unfold JS.keys. induction o as [|[k v] o IH]; csimpl; [done|].
  rewrite NoDup_cons. intros [Hk Hnd].
  rewrite decide_True by done. f_equal.
  rewrite <- IH by done. apply list_fmap_ext; intros i k' Hk'.
  rewrite decide_False; [done|].
  intros ->. apply Hk. by eapply list_elem_of_lookup_2.
Qed.

Lemma Object_entries_Permutation o : JS.Object_entries o ≡ₚ o.
Proof.
  unfold JS.Object_entries, JS.indexed, JS.named.
  rewrite merge_sort_Permutation.
  induction o as [|[k v] o IH]; [done|].
  rewrite filter_cons. csimpl. destruct (JS.array_index k) eqn:E; csimpl.
  - by rewrite IH.
  - rewrite <- Permutation_middle. by rewrite IH.
Qed.

Lemma Object_values_Permutation o : JS.Object_values o ≡ₚ o.*2.
Proof. unfold JS.Object_values. by rewrite Object_entries_Permutation. Qed.

Lemma filter_number_length (vs : list JS.Value) :
  (length (JS.filter_number vs) ≤ length vs)%nat
  ∧ (length (JS.filter_number vs) = length vs ↔ Forall is_Some vs).
Proof.
  unfold JS.filter_number. induction vs as [|[n|] vs [IH1 IH2]]; csimpl.
  - split; [lia | done].
  - split; [lia|]. rewrite Forall_cons. split.
    + intros H. split; [by eexists | apply IH2; lia].
    + intros [_ H]. f_equal. by apply IH2.
  - split; [lia|]. rewrite Forall_cons. split; [lia|].
    by intros [[? ?] _].
Qed.

End objects.

Lemma obj_get_keys_values (o : JS.Obj) :
  NoDup (JS.keys o) → Forall2 (λ k v, JS.obj_get o k = Some v) (JS.keys o) o.*2.
Proof.
  intros Hnd. apply (Forall2_fmap (JS.obj_get o) Some (=)).
  apply list_eq_Forall2. by apply obj_get_keys.
Qed.

(** ** Lemmas on [loadCandidates] *)

Lemma Set_spread_NoDup (xs : list string) : NoDup (Set_spread xs).
Proof.
  unfold Set_spread.
  cut (∀ acc, NoDup acc →
         NoDup (foldl (λ acc x, if decide (x ∈ acc) then acc else acc ++ [x]) acc xs)).
  { intros H. apply H. constructor. }
  induction xs as [|x xs IH]; intros acc Hacc; simpl; [done|].
  apply IH. destruct (decide (x ∈ acc)); [done|].
  apply NoDup_app. split_and!; [done | | apply NoDup_singleton].
  intros y Hy ->%list_elem_of_singleton. done.
Qed.

Lemma filter_all {A} (P : A → Prop) `{∀ x, Decision (P x)} (l : list A) :
  (∀ x, x ∈ l → P x) → filter P l = l.
Proof.
  induction l as [|x l IH]; intros Hl; [done|].
  rewrite filter_cons_True by (apply Hl; left).
  rewrite IH; [done|]. intros y Hy. apply Hl. by right.
Qed.

(** Assignments to keys other than ["__proto__"] create them one after
    the other. *)
Lemma assign_null_keys (ps : list string) (ob : JS.Obj * bool) :
  "__proto__" ∉ ps → NoDup (JS.keys ob.1 ++ ps) →
  JS.keys (foldl JS.obj_assign_null ob ps).1 = JS.keys ob.1 ++ ps.
Proof.
  revert ob. induction ps as [|p ps IH]; intros [acc bare] Hp Hnd; simpl in *.
  - by rewrite app_nil_r.
  - apply not_elem_of_cons in Hp as [Hne Hp].
    assert (p ∉ JS.keys acc) as Hnew.
    { apply NoDup_app in Hnd as (_ & Hd & _). intros Hin.
      apply (Hd _ Hin). left. }
    unfold JS.obj_assign_null at 2. rewrite decide_False by done. simpl.
    rewrite IH; simpl; rewrite ?keys_obj_set_new by done;
      rewrite <- ?app_assoc; done.
Qed.

Lemma initialSelections_keys (ps : list string) :
  NoDup ps →
  JS.keys (initialSelections ps) = filter (λ p, p ≠ "__proto__") ps.
Proof.
  unfold initialSelections.
  cut (∀ acc, "__proto__" ∉ JS.keys acc → NoDup (JS.keys acc ++ ps) →
         JS.keys (foldl JS.obj_assign_null (acc, false) ps).1
         = JS.keys acc ++ filter (λ p, p ≠ "__proto__") ps).
  { intros H Hnd. by rewrite (H []); [| apply not_elem_of_nil |]. }
  induction ps as [|p ps IH]; intros acc Hacc Hnd; simpl.
  - by rewrite app_nil_r.
  - unfold JS.obj_assign_null at 2. simpl.
    destruct (decide (p = "__proto__")) as [->|Hne].
    + apply NoDup_app in Hnd as (Ha & Hd & [Hp Hps]%NoDup_cons).
      rewrite filter_cons_False by (by intros ?).
      rewrite (filter_all _ ps) by (by intros x Hx ->).
      apply (assign_null_keys ps (acc, true)); [done|]. simpl.
      apply NoDup_app. split_and!; [done | | done].
      intros x Hx Hin. apply (Hd x Hx). by right.
    + assert (p ∉ JS.keys acc) as Hnew.
      { apply NoDup_app in Hnd as (_ & Hd & _). intros Hin.
        apply (Hd _ Hin). left. }
      rewrite filter_cons_True by done.
      rewrite IH; rewrite keys_obj_set_new by done.
      * by rewrite <- app_assoc.
      * rewrite elem_of_app, list_elem_of_singleton. intros [?|?]; by auto.
      * by rewrite <- app_assoc.
Qed.

Lemma obj_set_null (o : JS.Obj) (k : string) :
  Forall (λ kv, kv.2 = None) o → Forall (λ kv, kv.2 = None) (JS.obj_set o k None).
Proof.
  induction 1 as [|[k' v'] o Hv Ho IH]; simpl.
  - by repeat constructor.
  - destruct (decide (k' = k)); constructor; auto.
Qed.

Lemma initialSelections_null (ps : list string) :
  Forall (λ kv, kv.2 = None) (initialSelections ps).
Proof.
  unfold initialSelections.
  cut (∀ ob : JS.Obj * bool, Forall (λ kv, kv.2 = None) ob.1 →
         Forall (λ kv, kv.2 = None) (foldl JS.obj_assign_null ob ps).1).
  { intros H. apply H. constructor. }
  induction ps as [|p ps IH]; intros [acc bare] Hacc; simpl; [done|].
  apply IH. unfold JS.obj_assign_null. simpl in *.
  destruct (decide _); [destruct bare|]; simpl; auto using obj_set_null.
Qed.

Lemma obj_get_null (o : JS.Obj) (k : string) (c : Z) :
  Forall (λ kv, kv.2 = None) o → JS.obj_get o k ≠ Some (Some c).
Proof.
  induction 1 as [|[k' v'] o Hv Ho IH]; simpl; [done|].
  destruct (decide (k' = k)); [|done]. simpl in Hv. by subst.
Qed.

(** ** Lemmas on the submit handlers *)

Lemma Part000_result voter W s :
  result (Part000.handleSubmit voter W s) = run (submitAll voter W s).
Proof. unfold result, Part000.handleSubmit. by destruct (run _). Qed.

Lemma Part002_result voter W s :
  result (Part002.handleSubmit voter W s) = run (submitAll voter W s).
Proof. unfold result, Part002.handleSubmit. by destruct (run _). Qed.

Lemma Part004_result voter W s :
  result (Part004.handleSubmit voter W s) = run (submitAll voter W s).
Proof. unfold result, Part004.handleSubmit. by destruct (run _). Qed.

Lemma Part001_result voter W s :
  result (Part001.submitVote voter W s) = run (Part001.submit voter W s).
Proof. unfold result, Part001.submitVote. by destruct (run _). Qed.

(** The run of the strict handler, branch by branch. *)
Lemma run_submitAll voter W s :
  run (submitAll voter W s) =
  match Supabase.error (voting_deadline W) with
  | Some msg => (SubmissionError msg, [])
  | None =>
      if votingEnded W (Supabase.data (voting_deadline W))
      then (DeadlineExpired, [])
      else
        let filled := JS.filter_number (JS.Object_values (selections s)) in
        let votes := Vote.mk (Voter.id voter) <$> filled in
        if bool_decide (length filled = length (positions s)) then
          match votes_insert W votes with
          | Some msg => (SubmissionError msg, [Supabase.InsertVotes votes])
          | None =>
              (match voters_update W (Voter.id voter) with
               | Some msg => SubmissionError msg
               | None => Submitted
               end,
               [Supabase.InsertVotes votes; Supabase.MarkVoted (Voter.id voter)])
          end
        else (IncompleteBallot, [])
  end.
Proof.
  unfold run, submitAll, mbind, Handler_bind, throw_if, leave_if, throw, leave,
    insertVotes, markVoted, mret, Handler_ret.
  destruct (Supabase.error (voting_deadline W)); [done|].
  destruct (votingEnded W _); [done|]. simpl.
  destruct (bool_decide _); simpl; [|done].
  destruct (votes_insert W _); [done|].
  by destruct (voters_update W _).
Qed.

(** [.filter(([_, id]) => id !== null).map(([_, id]) => f(id))] on the
    entries is [.filter(v => v !== null).map(f)] on the values. *)
Lemma entries_filter_map {B} (f : Z → B) (o : JS.Obj) :
  omap (λ '(_, id), f <$> id) o = f <$> JS.filter_number o.*2.
Proof.
  unfold JS.filter_number. induction o as [|[k [c|]] o IH]; csimpl; [done| |done].
  by rewrite IH.
Qed.

(** The run of the permissive handler, branch by branch. *)
Lemma run_submit001 voter W s :
  run (Part001.submit voter W s) =
  if Part001.votingEnded W (Supabase.data (Supabase.single (voting_deadline W)))
  then (DeadlineExpired, [])
  else
    let votes :=
      Vote.mk (Voter.id voter) <$> JS.filter_number (JS.Object_values (selections s)) in
    let mark := Supabase.MarkVoted (Voter.id voter) in
    let close w :=
      (match voters_update W (Voter.id voter) with
       | Some msg => SubmissionError msg
       | None => Submitted
       end, w ++ [mark]) in
    if bool_decide (0 < length votes)%nat then
      match votes_insert W votes with
      | Some msg => (SubmissionError msg, [Supabase.InsertVotes votes])
      | None => close [Supabase.InsertVotes votes]
      end
    else close [].
Proof.
  unfold Part001.submit. rewrite entries_filter_map. fold (JS.Object_values (selections s)).
  unfold run, mbind, Handler_bind, throw_if, leave_if, throw,
    leave, insertVotes, markVoted, mret, Handler_ret.
  destruct (Part001.votingEnded W _); [done|]. simpl.
  destruct (bool_decide _); simpl.
  - destruct (votes_insert W _); [done|]. simpl.
    by destruct (voters_update W _).
  - by destruct (voters_update W _).
Qed.

(** ** Consequences of [keyed] *)

Lemma Forall2_read_all_Some {K} (g : K → option (option Z)) ks vs :
  Forall2 (λ k v, g k = Some v) ks vs →
  (∀ k, k ∈ ks → ∃ c, g k = Some (Some c)) ↔ Forall is_Some vs.
Proof.
  induction 1 as [|k v ks vs Hkv _ IH].
  - split; [constructor | by intros _ k ?%elem_of_nil].
  - rewrite Forall_cons, <- IH. split.
    + intros Hc. split; [|intros p Hp; apply Hc; by right].
      destruct (Hc k) as [c Hc']; [left|]. rewrite Hkv in Hc'. by simplify_eq.
    + intros [[c ->] Hs] p [->|Hp]%elem_of_cons; [by exists c | by apply Hs].
Qed.

Lemma keyed_complete s :
  keyed s → complete s ↔ Forall is_Some (selections s).*2.
Proof.
  intros [Hk Hnd]. rewrite <- Hk in Hnd.
  unfold complete, holds. rewrite <- Hk.
  by apply Forall2_read_all_Some, obj_get_keys_values.
Qed.

Lemma keyed_filled s :
  keyed s →
  length (JS.filter_number (JS.Object_values (selections s))) = length (positions s)
  ↔ complete s.
Proof.
  intros Hk. rewrite (keyed_complete s Hk). destruct Hk as [Hk _].
  rewrite <- Hk. unfold JS.keys, JS.filter_number.
  rewrite (Object_values_Permutation (selections s)).
  rewrite length_fmap, <- (length_fmap snd).
  apply filter_number_length.
Qed.

Lemma keyed_ballot voter s :
  keyed s →
  Vote.mk (Voter.id voter) <$> JS.filter_number (JS.Object_values (selections s))
  ≡ₚ ballot voter s.
Proof.
  intros [Hk Hnd]. rewrite <- Hk in Hnd.
  unfold ballot, JS.filter_number. rewrite <- Hk.
  rewrite (Object_values_Permutation (selections s)).
  rewrite list_fmap_omap.
  erewrite (list_omap_ext _ _ (JS.keys (selections s)) (selections s).*2); [done|].
  eapply Forall2_impl; [by apply obj_get_keys_values|].
  intros k v ->. done.
Qed.

Lemma complete_ballot_length voter s :
  complete s → length (ballot voter s) = length (positions s).
Proof.
  unfold complete, ballot, holds. induction (positions s) as [|p ps IH]; [done|].
  intros Hc. csimpl. destruct (Hc p) as [c ->]; [left|]. csimpl.
  f_equal. apply IH. intros q Hq. apply Hc. by right.
Qed.

Lemma lacking_not_complete s : lacking s → ¬ complete s.
Proof. intros (p & Hp & Hno) Hc. destruct (Hc p Hp) as [c Hc']. by apply (Hno c). Qed.

(** ** Invariants of the reachable sessions *)

Section invariant.
Variables (R : UI.Revision) (voter : Voter.t).
Hypothesis load_sound : ∀ r s, sound s → sound (UI.load R r s).
Hypothesis select_sound :
  ∀ p c s, sound s → p ∈ positions s → sound (UI.select R p c s).
Hypothesis skip_sound :
  ∀ p s, sound s → p ∈ positions s → sound (UI.skip R p s).
Hypothesis submit_sound :
  ∀ W s, sound s → sound (UI.submit R voter W s).1.1.

Lemma setCurrentPage_sound f s : sound s → sound (setCurrentPage f s).
Proof. done. Qed.

Lemma step_sound e s s' : sound s → UI.step R voter e s = Some s' → sound s'.
Proof using All.
  intros Hs. destruct e; simpl; intros Hstep;
    repeat case_match; simplify_option_eq; auto.
  - apply select_sound; [done|].
    eapply list_elem_of_lookup_2. unfold currentPosition in *. eassumption.
  - apply skip_sound; [done|].
    eapply list_elem_of_lookup_2. unfold currentPosition in *. eassumption.
  - unfold handleNext. case_bool_decide; [by apply setCurrentPage_sound | done].
  - unfold handleBack. case_bool_decide; [by apply setCurrentPage_sound | done].
Qed.

Lemma mount_sound : sound mount.
Proof.
  split; [split_and!; simpl; [constructor | constructor | done |] |].
  - by intros ?%elem_of_nil.
  - intros p c Hp. by apply not_elem_of_empty in Hp.
Qed.

Lemma reachable_sound s : UI.reachable R voter s → sound s.
Proof using All.
  induction 1 as [|e s s' _ IH Hstep]; [apply mount_sound|].
  by eapply step_sound.
Qed.

End invariant.

Lemma loaded_owned (ps : list string) s :
  NoDup ps →
  owned (setSelections (λ _, initialSelections ps) (setPositions ps s)).
Proof.
  intros Hnd. unfold owned. simpl. rewrite initialSelections_keys by done.
  split_and!; [done | by apply NoDup_filter | |].
  - rewrite list_filter_filter. apply list_filter_iff. tauto.
  - by intros [? _]%list_elem_of_filter.
Qed.

Lemma loaded_sound (data : list Candidate.t) s :
  let uniquePositions := Set_spread (Candidate.position <$> data) in
  sound (setSelections (λ _, initialSelections uniquePositions)
           (setPositions uniquePositions (setCandidates data s))).
Proof.
  intros ps. split.
  - apply (loaded_owned ps (setCandidates data s)), Set_spread_NoDup.
  - intros p c _. apply obj_get_null, initialSelections_null.
Qed.

Lemma loadCandidates_sound r s : sound s → sound (loadCandidates r s).
Proof.
  intros Hs. unfold loadCandidates.
  destruct (Supabase.error r); [done|].
  destruct (Supabase.data r) as [data|]; [|done].
  apply (loaded_sound data).
Qed.

Lemma loadCandidates001_sound r s : sound s → sound (Part001.loadCandidates r s).
Proof.
  intros Hs. unfold Part001.loadCandidates.
  destruct (Supabase.error r); [done|].
  destruct (Supabase.data r) as [data|]; [|done].
  split.
  - apply (loaded_owned (Set_spread (Candidate.position <$> data))
             (setCandidates data
                (setError None (setIsLoading true (setIsLoading false s))))),
      Set_spread_NoDup.
  - intros p c _. apply obj_get_null. simpl. apply initialSelections_null.
Qed.

Lemma owned_keys_positions s k :
  owned s → k ∈ JS.keys (selections s) → k ∈ positions s.
Proof.
  intros (_ & _ & Hf & Hp) Hk.
  destruct (decide (k = "__proto__")) as [->|Hne]; [by apply Hp|].
  assert (k ∈ filter (λ k, k ≠ "__proto__") (JS.keys (selections s))) as Hin
    by (by apply list_elem_of_filter).
  rewrite Hf in Hin. by apply list_elem_of_filter in Hin as [_ ?].
Qed.

Lemma owned_positions_keys s p :
  owned s → p ∈ positions s → p ≠ "__proto__" → p ∈ JS.keys (selections s).
Proof.
  intros (_ & _ & Hf & _) Hp Hne.
  assert (p ∈ filter (λ p, p ≠ "__proto__") (positions s)) as Hin
    by (by apply list_elem_of_filter).
  rewrite <- Hf in Hin. by apply list_elem_of_filter in Hin as [_ ?].
Qed.

(** Without a position labelled ["__proto__"] the store is keyed by the
    positions. *)
Lemma owned_keyed s : owned s → "__proto__" ∉ positions s → keyed s.
Proof.
  intros Ho Hp. pose proof Ho as (Hnd & _ & Hf & _). split; [|done].
  rewrite (filter_all _ (positions s)) in Hf by (by intros x Hx ->).
  rewrite filter_all in Hf; [done|].
  intros x Hx ->. apply Hp. by apply (owned_keys_positions s).
Qed.

Lemma owned_length s : owned s → (length (selections s) ≤ length (positions s))%nat.
Proof.
  intros Ho. pose proof Ho as (_ & Hnd & _).
  rewrite <- (length_fmap fst). apply submseteq_length, NoDup_submseteq; [done|].
  intros k. by apply owned_keys_positions.
Qed.

(** With as many candidates stored as there are positions, every
    position holds one. *)
Lemma owned_filled s :
  owned s →
  (length (positions s)
   ≤ length (JS.filter_number (JS.Object_values (selections s))))%nat →
  length (JS.filter_number (JS.Object_values (selections s)))
  = length (positions s)
  ∧ complete s.
Proof.
  intros Ho Hle. pose proof Ho as (_ & Hnd & _).
  pose proof (owned_length s Ho) as Hlen.
  unfold JS.filter_number in *.
  rewrite (Object_values_Permutation (selections s)) in Hle |- *.
  destruct (filter_number_length (selections s).*2) as [H1 H2].
  unfold JS.filter_number in H1, H2. rewrite length_fmap in H1, H2.
  assert (length (selections s) = length (positions s)) as Hsame by lia.
  split; [lia|].
  assert (Forall is_Some (selections s).*2) as Hall by (apply H2; lia).
  assert (JS.keys (selections s) ≡ₚ positions s) as Hperm.
  { apply submseteq_length_Permutation.
    - apply NoDup_submseteq; [done|]. intros k. by apply owned_keys_positions.
    - unfold JS.keys. rewrite length_fmap. lia. }
  intros p Hp. rewrite <- Hperm in Hp. revert p Hp.
  apply (Forall2_read_all_Some (JS.obj_get (selections s))
           (JS.keys (selections s)) (selections s).*2); [|done].
  by apply obj_get_keys_values.
Qed.

Lemma elem_of_keys_obj_set (o : JS.Obj) k v k' :
  k' ∈ JS.keys (JS.obj_set o k v) ↔ k' = k ∨ k' ∈ JS.keys o.
Proof.
  destruct (decide (k ∈ JS.keys o)) as [Hin|Hout].
  - rewrite keys_obj_set_old by done. split; [by right|]. by intros [->|?].
  - rewrite keys_obj_set_new by done.
    rewrite elem_of_app, list_elem_of_singleton. tauto.
Qed.

(** [{ ...selections, [p]: v }] for a position [p] keeps the store in
    step with the positions. *)
Lemma owned_obj_set s s' p v :
  positions s' = positions s →
  selections s' = JS.obj_set (selections s) p v →
  p ∈ positions s → owned s → owned s'.
Proof.
  intros Hpos Hsel Hp Ho. pose proof Ho as (Hnd & Hk & Hf & Hproto).
  unfold owned. rewrite Hpos, Hsel. split_and!; [done | by apply obj_set_NoDup | |].
  - destruct (decide (p ∈ JS.keys (selections s))) as [Hin|Hout].
    + by rewrite keys_obj_set_old.
    + rewrite keys_obj_set_new, filter_app by done.
      destruct (decide (p = "__proto__")) as [->|Hne].
      * rewrite filter_cons_False by (by intros ?). by rewrite app_nil_r.
      * destruct Hout. by apply owned_positions_keys.
  - rewrite elem_of_keys_obj_set. intros [<-|?]; [done | by apply Hproto].
Qed.

Lemma handleSelectCandidate_sound p c s :
  sound s → p ∈ positions s → sound (handleSelectCandidate p c s).
Proof.
  intros [Ho Hex] Hp. unfold handleSelectCandidate. split.
  - by apply (owned_obj_set s _ p (Some c)).
  - intros q c'; unfold holds; simpl.
    rewrite elem_of_difference, not_elem_of_singleton. intros [Hq Hne].
    rewrite obj_get_set_ne by done. by apply Hex.
Qed.

Lemma toggleSkip000_sound p s :
  sound s → p ∈ positions s → sound (Part000.toggleSkip p s).
Proof.
  intros [Ho Hex] Hp. unfold Part000.toggleSkip.
  destruct (decide (p ∈ skipped s)) as [Hin|Hout]; split.
  - by eapply (owned_obj_set s _ p).
  - intros q c; unfold holds; simpl.
    rewrite elem_of_difference, not_elem_of_singleton. intros [Hq Hne].
    rewrite obj_get_set_ne by done. by apply Hex.
  - by eapply (owned_obj_set s _ p).
  - intros q c; unfold holds; simpl; intros Hq.
    destruct (decide (p = q)) as [<-|Hne].
    + by rewrite obj_get_set_eq.
    + rewrite obj_get_set_ne by done. apply Hex.
      apply elem_of_union in Hq as [Hq|Hq%elem_of_singleton]; [done | congruence].
Qed.

Lemma toggleSkip001_sound p s :
  sound s → p ∈ positions s → sound (Part001.toggleSkip p s).
Proof.
  intros [Ho Hex] Hp. unfold Part001.toggleSkip.
  destruct (decide (p ∈ skipped s)) as [Hin|Hout].
  - split; [done|]. intros q c; unfold holds; simpl; intros Hq.
    apply Hex. by apply elem_of_difference in Hq as [? _].
  - split; [by eapply (owned_obj_set s _ p)|].
    intros q c; unfold holds; simpl; intros Hq.
    destruct (decide (p = q)) as [<-|Hne].
    + by rewrite obj_get_set_eq.
    + rewrite obj_get_set_ne by done. apply Hex.
      apply elem_of_union in Hq as [Hq|Hq%elem_of_singleton]; [done | congruence].
Qed.

Lemma handleSubmit000_sound voter W s :
  sound s → sound (Part000.handleSubmit voter W s).1.1.
Proof. unfold Part000.handleSubmit. by destruct (run _) as [[] w]. Qed.

Lemma submitVote001_sound voter W s :
  sound s → sound (Part001.submitVote voter W s).1.1.
Proof. unfold Part001.submitVote. by destruct (run _) as [[] w]. Qed.

Lemma handleSubmit004_sound voter W s :
  sound s → sound (Part004.handleSubmit voter W s).1.1.
Proof. unfold Part004.handleSubmit. by destruct (run _) as [[] w]. Qed.

Lemma reachable000_sound voter s : UI.reachable part000 voter s → sound s.
Proof.
  apply reachable_sound; simpl;
    auto using loadCandidates_sound, handleSelectCandidate_sound,
      toggleSkip000_sound, handleSubmit000_sound.
Qed.

Lemma reachable001_sound voter s : UI.reachable part001 voter s → sound s.
Proof.
  apply reachable_sound; simpl;
    auto using loadCandidates001_sound, handleSelectCandidate_sound,
      toggleSkip001_sound, submitVote001_sound.
Qed.

Lemma reachable004_sound voter s : UI.reachable part004 voter s → sound s.
Proof.
  apply reachable_sound; simpl;
    auto using loadCandidates_sound, handleSelectCandidate_sound,
      toggleSkip000_sound, handleSubmit004_sound.
Qed.

(** In a reachable session without a position labelled ["__proto__"]
    the store is keyed by the positions. *)
Lemma reachable_keyed voter s :
  UI.reachable part000 voter s ∨ UI.reachable part001 voter s
  ∨ UI.reachable part004 voter s →
  "__proto__" ∉ positions s → keyed s.
Proof.
  intros Hr. apply owned_keyed.
  destruct Hr as [Hr|[Hr|Hr]];
    [apply (reachable000_sound voter s Hr) | apply (reachable001_sound voter s Hr)
    | apply (reachable004_sound voter s Hr)].
Qed.

Lemma play_reachable R voter es s s' :
  UI.reachable R voter s → UI.play R voter es s = Some s' → UI.reachable R voter s'.
Proof.
  revert s. induction es as [|e es IH]; intros s Hs; simpl.
  - by intros [= <-].
  - destruct (UI.step R voter e s) as [s1|] eqn:E; [|done]. simpl.
    apply IH. by eapply UI.reach_step.
Qed.

Lemma session_reachable R es :
  is_Some (UI.play R alice es mount) → UI.reachable R alice (session R es).
Proof.
  intros [s Hs]. unfold session. rewrite Hs. simpl.
  eapply play_reachable; [apply UI.reach_mount | done].
Qed.

Example answered_eq :
  (positions answered, selections answered, currentPage answered)
  = (["Best Speaker"; "Best Dish"],
     [("Best Speaker", Some 1); ("Best Dish", Some 4)], 2%nat).
Proof. reflexivity. Qed.

Example half_eq :
  (positions half, selections half, currentPage half)
  = (["Best Speaker"; "Best Dish"],
     [("Best Speaker", Some 1); ("Best Dish", None)], 0%nat).
Proof. reflexivity. Qed.

Example partial_eq :
  (positions partial, selections partial, currentPage partial)
  = (["Best Speaker"; "Best Dish"],
     [("Best Speaker", Some 1); ("Best Dish", None)], 2%nat).
Proof. reflexivity. Qed.

Lemma answered_reachable : UI.reachable part000 alice answered.
Proof. apply session_reachable. vm_compute. by eexists. Qed.

Lemma half_reachable : UI.reachable part000 alice half.
Proof. apply session_reachable. vm_compute. by eexists. Qed.

Lemma skippedFirst_reachable : UI.reachable part000 alice skippedFirst.
Proof. apply session_reachable. vm_compute. by eexists. Qed.

Lemma partial_reachable : UI.reachable part001 alice partial.
Proof. apply session_reachable. vm_compute. by eexists. Qed.

Lemma half_lacking : lacking half.
Proof.
  exists "Best Dish". split; [by right; left|]. intros c. by vm_compute.
Qed.

(** The concrete sessions have the positions of [catalog], so their
    stores are keyed by the positions. *)
Lemma catalog_keyed s :
  sound s → positions s = ["Best Speaker"; "Best Dish"] → keyed s.
Proof.
  intros [Ho _] Hp. apply owned_keyed; [done|]. rewrite Hp.
  by intros [?|[?|?%elem_of_nil]%elem_of_cons]%elem_of_cons.
Qed.

Lemma half_keyed : keyed half.
Proof.
  apply catalog_keyed; [|by vm_compute].
  apply (reachable000_sound alice), half_reachable.
Qed.

Lemma answered_keyed : keyed answered.
Proof.
  apply catalog_keyed; [|by vm_compute].
  apply (reachable000_sound alice), answered_reachable.
Qed.

Lemma partial_keyed : keyed partial.
Proof.
  apply catalog_keyed; [|by vm_compute].
  apply (reachable001_sound alice), partial_reachable.
Qed.

Lemma answered_complete : complete answered.
Proof.
  intros p [->|[->|[]%elem_of_nil]%elem_of_cons]%elem_of_cons;
    [by exists 1 | by exists 4].
Qed.

(** ** Submission: completeness and deadline *)

(** C1, as amended. In the strict revisions ([part_000], [part_002],
    [part_004]) a submit on a session in which some position holds no
    candidate issues no write at all. It ends with [IncompleteBallot]
    when the deadline query succeeds and the deadline is absent or not
    passed; the deadline is examined first, so an expired deadline gives
    [DeadlineExpired] and a failed query [SubmissionError]. *)
Theorem strict_submit_lacking voter W s :
  keyed s → lacking s →
  result (Part000.handleSubmit voter W s) = refusal W
  ∧ result (Part002.handleSubmit voter W s) = refusal W
  ∧ result (Part004.handleSubmit voter W s) = refusal W.
Proof.
  intros Hk Hl.
  rewrite Part000_result, Part002_result, Part004_result, run_submitAll.
  unfold refusal.
  destruct (Supabase.error (voting_deadline W)); [done|].
  destruct (votingEnded W _); [done|]. simpl.
  rewrite bool_decide_false; [done|].
  rewrite keyed_filled by done. by apply lacking_not_complete.
Qed.

Lemma strict_submit_lacking_witness :
  keyed half ∧ lacking half
  ∧ result (Part000.handleSubmit alice (world 100 (Some 200)) half)
    = (IncompleteBallot, []).
Proof.
  assert (keyed half) as Hk by (exact half_keyed).
  split; [exact Hk|]. split; [exact half_lacking|].
  exact (proj1 (strict_submit_lacking alice (world 100 (Some 200)) half Hk half_lacking)).
Defined.

(** C1 as stated fails twice: with the deadline passed the strict
    handler answers [DeadlineExpired] to an incomplete ballot, and the
    permissive handler of [part_001] writes it to the store. *)
Lemma submit_lacking_counterexample :
  (lacking half
   ∧ result (Part000.handleSubmit alice (world 300 (Some 200)) half)
     = (DeadlineExpired, []))
  ∧ (lacking partial
     ∧ result (Part001.submitVote alice (world 100 (Some 200)) partial)
       = (Submitted,
          [Supabase.InsertVotes [Vote.mk 9 1]; Supabase.MarkVoted 9])).
Proof.
  split; (split; [|reflexivity]).
  - exact half_lacking.
  - exists "Best Dish". split; [by right; left|]. intros c. by vm_compute.
Qed.

(** C2. Whatever the session, when the deadline read at submission lies
    before the current time, submit ends with [DeadlineExpired] and
    issues no write, in the strict revisions and (for a single deadline
    row) in the permissive one. *)
Theorem deadline_passed_no_writes voter W s row rest d :
  Supabase.error (voting_deadline W) = None →
  Supabase.data (voting_deadline W) = Some (row :: rest) →
  Settings.value row = Some d →
  d < now W →
  result (Part000.handleSubmit voter W s) = (DeadlineExpired, [])
  ∧ result (Part002.handleSubmit voter W s) = (DeadlineExpired, [])
  ∧ result (Part004.handleSubmit voter W s) = (DeadlineExpired, [])
  ∧ (rest = [] → result (Part001.submitVote voter W s) = (DeadlineExpired, [])).
Proof.
  intros He Hd Hv Hlt.
  rewrite Part000_result, Part002_result, Part004_result, Part001_result.
  rewrite run_submitAll, run_submit001. unfold Supabase.single.
  rewrite He, Hd. simpl. unfold after. rewrite Hv.
  rewrite bool_decide_true by done.
  split_and!; [done..|]. intros ->. simpl. unfold after. rewrite Hv.
  by rewrite bool_decide_true.
Qed.

Lemma deadline_passed_no_writes_witness :
  result (Part000.handleSubmit alice (world 300 (Some 200)) answered)
    = (DeadlineExpired, [])
  ∧ result (Part001.submitVote alice (world 300 (Some 200)) answered)
    = (DeadlineExpired, []).
Proof.
  pose proof (deadline_passed_no_writes alice (world 300 (Some 200)) answered
                (Settings.mk (Some 200)) [] 200 eq_refl eq_refl eq_refl
                ltac:(vm_compute; reflexivity)) as (H0 & _ & _ & H1).
  split; [exact H0 | exact (H1 eq_refl)].
Defined.

(** ** Submission: the two writes *)

Lemma complete_ballot voter s :
  complete s →
  Forall2 (λ p v, Vote.voter_id v = Voter.id voter ∧ holds s p (Vote.candidate_id v))
    (positions s) (ballot voter s).
Proof.
  unfold complete, ballot, holds. induction (positions s) as [|p ps IH].
  - constructor.
  - intros Hc. csimpl. destruct (Hc p) as [c Hp]; [left|]. rewrite Hp. csimpl.
    constructor; [done|]. apply IH. intros q Hq. apply Hc. by right.
Qed.

(** C3. On a complete ballot with the deadline not passed, the strict
    handler builds one record [(voter_id, candidate_id)] per position
    from the entry of that position, sends all of them in one
    [insertVotes], and issues [markVoted] as a second write, only after
    the insert, and only when the insert succeeded. *)
Theorem complete_submit_writes voter W s :
  keyed s → complete s → deadlineOpen W →
  ∃ votes,
    votes ≡ₚ ballot voter s
    ∧ Forall2 (λ p v, Vote.voter_id v = Voter.id voter
                      ∧ holds s p (Vote.candidate_id v))
        (positions s) (ballot voter s)
    ∧ result (Part000.handleSubmit voter W s) =
      match votes_insert W votes with
      | Some msg => (SubmissionError msg, [Supabase.InsertVotes votes])
      | None =>
          (match voters_update W (Voter.id voter) with
           | Some msg => SubmissionError msg
           | None => Submitted
           end,
           [Supabase.InsertVotes votes; Supabase.MarkVoted (Voter.id voter)])
      end.
Proof.
  intros Hk Hc [He Hopen].
  exists (Vote.mk (Voter.id voter)
            <$> JS.filter_number (JS.Object_values (selections s))).
  split; [by apply keyed_ballot|]. split; [by apply complete_ballot|].
  rewrite Part000_result, run_submitAll, He, Hopen. simpl.
  rewrite bool_decide_true; [done|]. by apply keyed_filled.
Qed.

Lemma complete_submit_writes_witness :
  keyed answered ∧ complete answered ∧ deadlineOpen (world 100 (Some 200))
  ∧ ∃ votes,
      votes ≡ₚ [Vote.mk 9 1; Vote.mk 9 4]
      ∧ result (Part000.handleSubmit alice (world 100 (Some 200)) answered)
        = (Submitted, [Supabase.InsertVotes votes; Supabase.MarkVoted 9]).
Proof.
  assert (keyed answered) as Hk
    by exact answered_keyed.
  assert (deadlineOpen (world 100 (Some 200))) as Ho by (split; reflexivity).
  split; [exact Hk|]. split; [exact answered_complete|]. split; [exact Ho|].
  destruct (complete_submit_writes alice (world 100 (Some 200)) answered
              Hk answered_complete Ho) as (votes & Hp & _ & H).
  exists votes. split; [exact Hp | exact H].
Defined.

(** ** The selection store *)

Lemma obj_set_set (o : JS.Obj) k v v' :
  JS.obj_set (JS.obj_set o k v) k v' = JS.obj_set o k v'.
Proof.
  induction o as [|[k0 v0] o IH]; simpl.
  - by rewrite decide_True.
  - destruct (decide (k0 = k)) as [->|Hne]; simpl.
    + by rewrite decide_True.
    + rewrite decide_False by done. by rewrite IH.
Qed.

Lemma delete_add (X : gset string) p : p ∈ X → X ∖ {[p]} ∪ {[p]} = X.
Proof.
  intros Hp. apply set_eq. intros q.
  rewrite elem_of_union, elem_of_difference, elem_of_singleton.
  destruct (decide (q = p)) as [->|Hne]; intuition.
Qed.

Lemma add_delete (X : gset string) p : p ∉ X → (X ∪ {[p]}) ∖ {[p]} = X.
Proof.
  intros Hp. apply set_eq. intros q.
  rewrite elem_of_difference, elem_of_union, elem_of_singleton.
  destruct (decide (q = p)) as [->|Hne]; intuition.
Qed.

Lemma toggleSkip000_twice p s :
  let s2 := Part000.toggleSkip p (Part000.toggleSkip p s) in
  skipped s2 = skipped s
  ∧ selections s2 = JS.obj_set (selections s) p None.
Proof.
  unfold Part000.toggleSkip.
  destruct (decide (p ∈ skipped s)) as [Hin|Hout]; simpl.
  - rewrite decide_False; simpl.
    + split; [by apply delete_add | apply obj_set_set].
    + rewrite elem_of_difference, elem_of_singleton. intuition.
  - rewrite decide_True; simpl.
    + split; [by apply add_delete|].
      by rewrite obj_get_set_eq, obj_set_set.
    + rewrite elem_of_union, elem_of_singleton. intuition.
Qed.

Lemma toggleSkip001_twice p s :
  let s2 := Part001.toggleSkip p (Part001.toggleSkip p s) in
  skipped s2 = skipped s
  ∧ selections s2 = JS.obj_set (selections s) p None.
Proof.
  unfold Part001.toggleSkip.
  destruct (decide (p ∈ skipped s)) as [Hin|Hout]; simpl.
  - rewrite decide_False; simpl.
    + split; [by apply delete_add | done].
    + rewrite elem_of_difference, elem_of_singleton. intuition.
  - rewrite decide_True; simpl.
    + split; [by apply add_delete | done].
    + rewrite elem_of_union, elem_of_singleton. intuition.
Qed.

Lemma session_eq s s' :
  candidates s = candidates s' → positions s = positions s' →
  selections s = selections s' → currentPage s = currentPage s' →
  isLoading s = isLoading s' → isSubmitting s = isSubmitting s' →
  error s = error s' → skipped s = skipped s' →
  showSummary s = showSummary s' → submitTime s = submitTime s' → s = s'.
Proof. destruct s, s'; simpl; intros; by subst. Qed.

Lemma toggleSkip000_fields p s :
  let s' := Part000.toggleSkip p s in
  candidates s' = candidates s ∧ positions s' = positions s
  ∧ currentPage s' = currentPage s ∧ isLoading s' = isLoading s
  ∧ isSubmitting s' = isSubmitting s ∧ error s' = error s
  ∧ showSummary s' = showSummary s ∧ submitTime s' = submitTime s.
Proof. unfold Part000.toggleSkip. by destruct (decide _). Qed.

Lemma toggleSkip001_fields p s :
  let s' := Part001.toggleSkip p s in
  candidates s' = candidates s ∧ positions s' = positions s
  ∧ currentPage s' = currentPage s ∧ isLoading s' = isLoading s
  ∧ isSubmitting s' = isSubmitting s ∧ error s' = error s
  ∧ showSummary s' = showSummary s ∧ submitTime s' = submitTime s.
Proof. unfold Part001.toggleSkip. by destruct (decide _). Qed.

(** C4, as amended. Two consecutive [toggleSkip(p)] give back the skip
    mark of [p] and leave its selection [null]. A session in which [p]
    held no candidate (unset or skipped) is therefore restored, whole;
    a candidate chosen before is not restored: the first call clears it
    and the second leaves the position unset. Both revisions of
    [toggleSkip] agree on this. *)
Theorem toggleSkip_twice p s :
  let s0 := Part000.toggleSkip p (Part000.toggleSkip p s) in
  let s1 := Part001.toggleSkip p (Part001.toggleSkip p s) in
  (entry s0 p = (Some None, bool_decide (p ∈ skipped s))
   ∧ entry s1 p = (Some None, bool_decide (p ∈ skipped s)))
  ∧ (JS.obj_get (selections s) p = Some None → s0 = s ∧ s1 = s).
Proof.
  intros s0 s1.
  destruct (toggleSkip000_twice p s) as [Hk0 Hs0].
  destruct (toggleSkip001_twice p s) as [Hk1 Hs1].
  fold s0 in Hk0, Hs0. fold s1 in Hk1, Hs1.
  split.
  - unfold entry. rewrite Hk0, Hs0, Hk1, Hs1. by rewrite obj_get_set_eq.
  - intros Hnull. apply obj_set_same in Hnull.
    rewrite Hnull in Hs0, Hs1.
    pose proof (toggleSkip000_fields p (Part000.toggleSkip p s)) as H0.
    pose proof (toggleSkip000_fields p s) as H0'.
    pose proof (toggleSkip001_fields p (Part001.toggleSkip p s)) as H1.
    pose proof (toggleSkip001_fields p s) as H1'.
    simpl in H0, H0', H1, H1'. fold s0 in H0. fold s1 in H1.
    split; apply session_eq; try done; intuition congruence.
Qed.

Lemma toggleSkip_twice_witness :
  JS.obj_get (selections skippedFirst) "Best Speaker" = Some None
  ∧ Part000.toggleSkip "Best Speaker"
      (Part000.toggleSkip "Best Speaker" skippedFirst) = skippedFirst
  ∧ Part001.toggleSkip "Best Speaker"
      (Part001.toggleSkip "Best Speaker" skippedFirst) = skippedFirst.
Proof.
  split; [reflexivity|].
  exact (proj2 (toggleSkip_twice "Best Speaker" skippedFirst) eq_refl).
Defined.

(** C4 as stated fails on a position that holds a candidate: after two
    skips the candidate is gone. *)
Lemma toggleSkip_twice_counterexample :
  entry half "Best Speaker" = (Some (Some 1), false)
  ∧ entry (Part000.toggleSkip "Best Speaker"
             (Part000.toggleSkip "Best Speaker" half)) "Best Speaker"
    = (Some None, false)
  ∧ entry (Part001.toggleSkip "Best Speaker"
             (Part001.toggleSkip "Best Speaker" half)) "Best Speaker"
    = (Some None, false).
Proof. split_and!; reflexivity. Qed.

(** ** Page navigation *)

(** The gate of the Next button in [part_001] and [part_004]: on the
    page of a position with a non-empty label that is a key of the
    store, it is closed exactly when the position is neither chosen nor
    skipped. *)
Lemma canProceed_false_iff s p :
  currentPosition s = Some p → p ≠ "" → p ∈ JS.keys (selections s) →
  Part001.canProceed s = false
  ↔ JS.obj_get (selections s) p = Some None ∧ p ∉ skipped s.
Proof.
  intros Hp Hne Hkey. unfold Part001.canProceed. rewrite Hp.
  destruct p as [|a p]; [done|]. simpl.
  rewrite orb_false_iff, bool_decide_eq_false.
  destruct (JS.obj_get (selections s) (String a p)) as [[c|]|] eqn:E; simpl.
  - split; [by intros [? _] | by intros [? _]].
  - split; [by intros [_ ?] | by intros [_ ?]].
  - by apply obj_get_None in E.
Qed.

(** C5 at the input where [part_000] departs from it. After the voter
    skips the first question the session is on a question page whose
    position is marked skipped, yet [isPositionSelected] is false and
    the Next button is off; the test of [part_001] and [part_004] on the
    same session lets the voter through. *)
Theorem skipped_position_blocks_next_in_part000 :
  UI.reachable part000 alice skippedFirst
  ∧ currentPosition skippedFirst = Some "Best Speaker"
  ∧ entry skippedFirst "Best Speaker" = (Some None, true)
  ∧ Part000.isPositionSelected skippedFirst = false
  ∧ UI.step part000 alice UI.ClickNext skippedFirst = None
  ∧ Part001.canProceed skippedFirst = true
  ∧ Part004.isPositionSelected skippedFirst = true.
Proof. split; [exact skippedFirst_reachable | split_and!; reflexivity]. Qed.

(** ** Selecting a candidate *)

(** C6. After [handleSelectCandidate(p, c)] (the same function as
    [selectCandidate] of [part_001]) the entry of [p] holds exactly [c],
    [p] is not marked skipped, and the completion test of every revision
    passes for [p]; and in no reachable session of a paginated revision
    is a position both skipped and holding a candidate. *)
Theorem select_holds_not_skipped voter s p c q d :
  (let s' := handleSelectCandidate p c s in
   entry s' p = (Some (Some c), false)
   ∧ Part001.selectCandidate p c s = s'
   ∧ (currentPosition s' = Some p →
      Part000.isPositionSelected s' = true ∧ Part001.canProceed s' = true))
  ∧ (UI.reachable part000 voter s ∨ UI.reachable part001 voter s
     ∨ UI.reachable part004 voter s →
     ¬ (q ∈ skipped s ∧ holds s q d)).
Proof.
  split.
  - intros s'. split_and!; [|done|].
    + unfold entry, s', handleSelectCandidate; simpl.
      rewrite obj_get_set_eq, bool_decide_false; [done|].
      rewrite elem_of_difference, elem_of_singleton. intuition.
    + intros Hp. unfold Part000.isPositionSelected, Part001.canProceed.
      rewrite Hp. unfold s', handleSelectCandidate; simpl.
      rewrite obj_get_set_eq. simpl. by destruct (JS.truthy p).
  - intros Hr [Hq Hh].
    assert (sound s) as [_ Hex].
    { destruct Hr as [Hr|[Hr|Hr]];
        eauto using reachable000_sound, reachable001_sound, reachable004_sound. }
    by apply (Hex q d).
Qed.

Lemma select_holds_not_skipped_witness :
  (UI.reachable part000 alice skippedFirst ∨ UI.reachable part001 alice skippedFirst
   ∨ UI.reachable part004 alice skippedFirst)
  ∧ entry (handleSelectCandidate "Best Speaker" 2 skippedFirst) "Best Speaker"
    = (Some (Some 2), false)
  ∧ ¬ ("Best Speaker" ∈ skipped skippedFirst ∧ holds skippedFirst "Best Speaker" 2).
Proof.
  destruct (select_holds_not_skipped alice skippedFirst "Best Speaker" 2
              "Best Speaker" 2) as [(He & _ & _) Hinv].
  split; [left; exact skippedFirst_reachable|].
  split; [exact He|]. exact (Hinv (or_introl skippedFirst_reachable)).
Defined.

(** C8, as amended. [handleSelectCandidate] does not examine the
    position: for a position that is not a key of the store it returns
    normally, with a new entry for that position added after the
    existing ones, the other entries and the positions unchanged. *)
Theorem select_unknown_position_creates_entry p c s :
  p ∉ JS.keys (selections s) →
  let s' := handleSelectCandidate p c s in
  selections s' = selections s ++ [(p, Some c)]
  ∧ positions s' = positions s
  ∧ selections (Part002.handleSelectCandidate p c s) = selections s ++ [(p, Some c)].
Proof.
  intros Hp s'. unfold s', handleSelectCandidate, Part002.handleSelectCandidate.
  simpl. split_and!; [by apply obj_set_new | done | by apply obj_set_new].
Qed.

Lemma select_unknown_position_creates_entry_witness :
  ("Best Dancer" ∉ JS.keys (selections half))
  ∧ selections (handleSelectCandidate "Best Dancer" 7 half)
    = [("Best Speaker", Some 1); ("Best Dish", None); ("Best Dancer", Some 7)].
Proof.
  assert ("Best Dancer" ∉ JS.keys (selections half)) as Hp.
  { apply (bool_decide_unpack _). vm_compute. exact I. }
  split; [exact Hp|].
  exact (proj1 (select_unknown_position_creates_entry "Best Dancer" 7 half Hp)).
Defined.

(** C8 as stated fails: selecting a position the catalog does not have
    is not rejected, it silently creates an entry. *)
Lemma select_unknown_position_counterexample :
  ("Best Dancer" ∉ positions half)
  ∧ JS.obj_get (selections half) "Best Dancer" = None
  ∧ JS.obj_get (selections (handleSelectCandidate "Best Dancer" 7 half)) "Best Dancer"
    = Some (Some 7)
  ∧ positions (handleSelectCandidate "Best Dancer" 7 half) = positions half.
Proof.
  split; [|split_and!; reflexivity].
  apply (bool_decide_unpack _). vm_compute. exact I.
Qed.

(** ** Submitting again *)

Lemma handleSubmit000_ballot voter W s :
  let s' := (Part000.handleSubmit voter W s).1.1 in
  selections s' = selections s ∧ positions s' = positions s.
Proof. unfold Part000.handleSubmit. by destruct (run _) as [[] w]. Qed.

Lemma handleSubmit004_ballot voter W s :
  let s' := (Part004.handleSubmit voter W s).1.1 in
  selections s' = selections s ∧ positions s' = positions s.
Proof. unfold Part004.handleSubmit. by destruct (run _) as [[] w]. Qed.

Lemma run_submitAll_ballot voter W s s' :
  selections s' = selections s → positions s' = positions s →
  run (submitAll voter W s') = run (submitAll voter W s).
Proof. intros Hs Hp. by rewrite !run_submitAll, Hs, Hp. Qed.

Lemma run_submitAll_expired voter W s :
  (run (submitAll voter W s)).1 = DeadlineExpired →
  Supabase.error (voting_deadline W) = None
  ∧ votingEnded W (Supabase.data (voting_deadline W)) = true.
Proof.
  rewrite run_submitAll.
  destruct (Supabase.error (voting_deadline W)); [done|].
  destruct (votingEnded W _); [done|]. simpl.
  destruct (bool_decide _); [|done].
  destruct (votes_insert W _); [done|]. simpl.
  by destruct (voters_update W _).
Qed.

Lemma votingEnded_later W1 W2 :
  voting_deadline W2 = voting_deadline W1 → (now W1 ≤ now W2)%Z →
  votingEnded W1 (Supabase.data (voting_deadline W1)) = true →
  votingEnded W2 (Supabase.data (voting_deadline W2)) = true.
Proof.
  intros -> Hle. unfold votingEnded, after.
  destruct (Supabase.data (voting_deadline W1)) as [[|[[d|]] rows]|]; try done.
  simpl. rewrite !bool_decide_eq_true. lia.
Qed.

(** The submit control is on screen and enabled only in a loaded session
    without a stored error and not already submitting. *)
Lemma submit_available R voter W s s' :
  UI.step R voter (UI.SubmitForm W) s = Some s' →
  UI.rendersBallot s && isLastPage s && negb (UI.submitOff R s) = true
  ∧ isLoading s = false ∧ error s = None ∧ UI.submitOff R s = false
  ∧ s' = (UI.submit R voter W s).1.1.
Proof.
  simpl. destruct (UI.rendersBallot s && isLastPage s && negb (UI.submitOff R s))
    eqn:Eg; [|done].
  intros [= <-]. split; [done|].
  apply andb_prop in Eg as [[Hr _]%andb_prop Hoff].
  unfold UI.rendersBallot in Hr.
  apply andb_prop in Hr as [[Hl He]%andb_prop _].
  split_and!; [by destruct (isLoading s) | by apply bool_decide_eq_true in He
              | by destruct (UI.submitOff R s) | done].
Qed.

(** [setIsSubmitting(true); setError(null); ...; setIsSubmitting(false)] *)
Lemma submitting_bracket s :
  isSubmitting s = false → error s = None →
  setIsSubmitting false (setError None (setIsSubmitting true s)) = s.
Proof. destruct s; simpl. by intros -> ->. Qed.

Lemma no_ballot_no_control R voter e s :
  isLoading s = false → UI.rendersBallot s = false → UI.step R voter e s = None.
Proof. intros Hl Hr. destruct e; simpl; by rewrite ?Hl, ?Hr. Qed.

(** C7, as amended. In the paginated strict revisions a submit that is
    refused with [DeadlineExpired] (or [IncompleteBallot]) leaves the
    session exactly as it was: nothing marks it as terminal, the submit
    control is enabled again, and the next submit answers as a first
    submit of the same session would under the store and clock of that
    later moment. It is refused again without a write as long as the
    deadline setting is unchanged and the clock has not gone back. After
    a [SubmissionError] only [part_004] lets the voter retry (its session
    is unchanged); in [part_000] the stored error leaves no control at
    all in that session. *)
Theorem resubmit_after_failure voter W1 W2 s s0 s4 :
  UI.step part000 voter (UI.SubmitForm W1) s = Some s0 →
  UI.step part004 voter (UI.SubmitForm W1) s = Some s4 →
  let o := (run (submitAll voter W1 s)).1 in
  ((result (Part000.handleSubmit voter W1 s)).1 = o
   ∧ (result (Part004.handleSubmit voter W1 s)).1 = o)
  ∧ (o = DeadlineExpired ∨ o = IncompleteBallot →
     s0 = s
     ∧ UI.step part000 voter (UI.SubmitForm W2) s0
       = Some (Part000.handleSubmit voter W2 s).1.1
     ∧ result (Part000.handleSubmit voter W2 s0)
       = result (Part000.handleSubmit voter W2 s))
  ∧ (o ≠ Submitted →
     s4 = s
     ∧ UI.step part004 voter (UI.SubmitForm W2) s4
       = Some (Part004.handleSubmit voter W2 s).1.1
     ∧ result (Part004.handleSubmit voter W2 s4)
       = result (Part004.handleSubmit voter W2 s))
  ∧ ((∃ msg, o = SubmissionError msg) →
     ∀ e, UI.step part000 voter e s0 = None)
  ∧ (o = DeadlineExpired →
     voting_deadline W2 = voting_deadline W1 → (now W1 ≤ now W2)%Z →
     result (Part000.handleSubmit voter W2 s0) = (DeadlineExpired, [])
     ∧ result (Part004.handleSubmit voter W2 s4) = (DeadlineExpired, [])).
Proof.
  intros H0 H4 o.
  pose proof H0 as Hstep0. pose proof H4 as Hstep4.
  apply submit_available in H0 as (G0 & Hl & He & Hoff & ->).
  apply submit_available in H4 as (G4 & _ & _ & _ & ->).
  cbn [UI.submit UI.submitOff part000 part004] in *.
  apply orb_false_iff in Hoff as [Hsub _].
  assert (o = DeadlineExpired ∨ o = IncompleteBallot →
          (Part000.handleSubmit voter W1 s).1.1 = s) as E0.
  { subst o. unfold Part000.handleSubmit. destruct (run _) as [o w]. simpl.
    intros [-> | ->]; by apply submitting_bracket. }
  assert (o ≠ Submitted → (Part004.handleSubmit voter W1 s).1.1 = s) as E4.
  { subst o. unfold Part004.handleSubmit. destruct (run _) as [o w]. simpl.
    intros Ho. destruct o; [done | by apply submitting_bracket..]. }
  split_and!.
  - by rewrite Part000_result.
  - by rewrite Part004_result.
  - intros Ho. rewrite (E0 Ho). split_and!; [done | | done].
    simpl. by rewrite G0.
  - intros Ho. rewrite (E4 Ho). split_and!; [done | | done].
    simpl. by rewrite G4.
  - intros [msg Ho] e. apply no_ballot_no_control.
    + unfold Part000.handleSubmit. by destruct (run _) as [[] w].
    + subst o. unfold Part000.handleSubmit.
      destruct (run _) as [o w]. simpl in Ho. subst o.
      unfold UI.rendersBallot. simpl. by rewrite Hl.
  - intros Ho Hsame Hle.
    rewrite (E0 (or_introl Ho)), E4 by (by rewrite Ho).
    apply run_submitAll_expired in Ho as [Hok Hended].
    pose proof (votingEnded_later W1 W2 Hsame Hle Hended) as Hended2.
    rewrite Part000_result, Part004_result, run_submitAll.
    by rewrite Hsame, Hok, <- Hsame, Hended2.
Qed.

Lemma resubmit_after_failure_witness :
  UI.step part000 alice (UI.SubmitForm (world 300 (Some 200))) answered
  = Some answered
  ∧ UI.step part000 alice (UI.SubmitForm (world 400 (Some 200))) answered
    = Some (Part000.handleSubmit alice (world 400 (Some 200)) answered).1.1
  ∧ result (Part000.handleSubmit alice (world 400 (Some 200)) answered)
    = (DeadlineExpired, []).
Proof.
  assert (UI.step part000 alice (UI.SubmitForm (world 300 (Some 200))) answered
          = Some (Part000.handleSubmit alice (world 300 (Some 200)) answered).1.1)
    as E0 by (vm_compute; reflexivity).
  assert (UI.step part004 alice (UI.SubmitForm (world 300 (Some 200))) answered
          = Some (Part004.handleSubmit alice (world 300 (Some 200)) answered).1.1)
    as E4 by (vm_compute; reflexivity).
  destruct (resubmit_after_failure alice (world 300 (Some 200))
              (world 400 (Some 200)) answered _ _ E0 E4)
    as (_ & Hsame & _ & _ & Hagain).
  assert ((run (submitAll alice (world 300 (Some 200)) answered)).1
          = DeadlineExpired) as Ho by (vm_compute; reflexivity).
  destruct (Hsame (or_introl Ho)) as (Es & Hstep & _).
  destruct (Hagain Ho eq_refl ltac:(vm_compute; discriminate)) as [Hres _].
  rewrite Es in Hstep, Hres.
  split_and!.
  - rewrite E0. exact (f_equal Some Es).
  - exact Hstep.
  - exact Hres.
Defined.

(** C7 as stated fails: after a run refused with [DeadlineExpired], a
    second run in the same session reaches both writes once the deadline
    setting has been moved past the current time. The submit button is
    enabled for both runs. *)
Lemma resubmit_after_deadline_counterexample :
  result (Part000.handleSubmit alice (world 300 (Some 200)) answered)
    = (DeadlineExpired, [])
  ∧ result (Part000.handleSubmit alice (world 400 (Some 500))
              (Part000.handleSubmit alice (world 300 (Some 200)) answered).1.1)
    = (Submitted,
       [Supabase.InsertVotes [Vote.mk 9 1; Vote.mk 9 4]; Supabase.MarkVoted 9])
  ∧ result (Part004.handleSubmit alice (world 300 (Some 200)) answered)
    = (DeadlineExpired, [])
  ∧ result (Part004.handleSubmit alice (world 400 (Some 500))
              (Part004.handleSubmit alice (world 300 (Some 200)) answered).1.1)
    = (Submitted,
       [Supabase.InsertVotes [Vote.mk 9 1; Vote.mk 9 4]; Supabase.MarkVoted 9])
  ∧ UI.step part000 alice (UI.SubmitForm (world 300 (Some 200))) answered
    = Some (Part000.handleSubmit alice (world 300 (Some 200)) answered).1.1
  ∧ UI.step part000 alice (UI.SubmitForm (world 400 (Some 500)))
      (Part000.handleSubmit alice (world 300 (Some 200)) answered).1.1
    = Some (Part000.handleSubmit alice (world 400 (Some 500))
              (Part000.handleSubmit alice (world 300 (Some 200)) answered).1.1).1.1.
Proof. split_and!; vm_compute; reflexivity. Qed.

(** ** Absent deadline, empty ballot *)

(** C9. When the deadline query yields no row, no deadline is enforced:
    at any clock value a complete ballot goes through the completeness
    test to the writes, and with a store that accepts them the run ends
    with [Submitted], in the strict and in the permissive revision. *)
Theorem absent_deadline_submits voter W s :
  keyed s → complete s → deadlineAbsent W →
  (∀ votes, votes_insert W votes = None) →
  voters_update W (Voter.id voter) = None →
  ∃ votes,
    votes ≡ₚ ballot voter s
    ∧ length votes = length (positions s)
    ∧ result (Part000.handleSubmit voter W s)
      = (Submitted, [Supabase.InsertVotes votes; Supabase.MarkVoted (Voter.id voter)])
    ∧ result (Part001.submitVote voter W s)
      = (Submitted,
         (if bool_decide (0 < length votes)%nat
          then [Supabase.InsertVotes votes] else [])
         ++ [Supabase.MarkVoted (Voter.id voter)]).
Proof.
  intros Hk Hc [He Hd] Hins Hupd.
  exists (Vote.mk (Voter.id voter)
            <$> JS.filter_number (JS.Object_values (selections s))).
  split; [by apply keyed_ballot|].
  split; [by rewrite length_fmap; apply keyed_filled|].
  rewrite Part000_result, Part001_result, run_submitAll, run_submit001.
  assert (votingEnded W (Supabase.data (voting_deadline W)) = false
          ∧ Part001.votingEnded W
              (Supabase.data (Supabase.single (voting_deadline W))) = false)
    as [-> ->].
  { unfold Supabase.single. rewrite He. by destruct Hd as [-> | ->]. }
  rewrite He. simpl. rewrite Hins, Hupd.
  rewrite bool_decide_true by (by apply keyed_filled).
  split; [done|]. by destruct (bool_decide _).
Qed.

Lemma absent_deadline_submits_witness :
  deadlineAbsent (world 123456789 None)
  ∧ ∃ votes,
      votes ≡ₚ [Vote.mk 9 1; Vote.mk 9 4]
      ∧ result (Part000.handleSubmit alice (world 123456789 None) answered)
        = (Submitted, [Supabase.InsertVotes votes; Supabase.MarkVoted 9]).
Proof.
  assert (deadlineAbsent (world 123456789 None)) as Ha
    by (split; [reflexivity | right; reflexivity]).
  split; [exact Ha|].
  destruct (absent_deadline_submits alice (world 123456789 None) answered
              answered_keyed
              answered_complete Ha (λ _, eq_refl) eq_refl)
    as (votes & Hp & _ & H0 & _).
  exists votes. split; [exact Hp | exact H0].
Defined.

Lemma filter_number_null (o : JS.Obj) :
  Forall (λ kv, kv.2 = None) o → JS.filter_number (JS.Object_values o) = [].
Proof.
  intros Ho. apply Permutation_nil_r.
  unfold JS.filter_number. rewrite Object_values_Permutation.
  induction Ho as [|[k v] o Hv _ IH]; [done|]. simpl in Hv. by subst.
Qed.

(** C10. In the permissive revision, on a session without a single
    chosen candidate (every position unset or skipped) and with the
    deadline test not firing, submit issues no [insertVotes], issues
    [markVoted] for the voter, and ends with [Submitted] when the store
    accepts that write: the voter is recorded as having voted with no
    vote record. *)
Theorem permissive_empty_ballot voter W s :
  Forall (λ kv, kv.2 = None) (selections s) →
  Part001.votingEnded W (Supabase.data (Supabase.single (voting_deadline W))) = false →
  (result (Part001.submitVote voter W s)).2 = [Supabase.MarkVoted (Voter.id voter)]
  ∧ (voters_update W (Voter.id voter) = None →
     result (Part001.submitVote voter W s)
     = (Submitted, [Supabase.MarkVoted (Voter.id voter)])).
Proof.
  intros Hnull Hopen. rewrite Part001_result, run_submit001, Hopen.
  rewrite filter_number_null by done. simpl.
  split; [done|]. by intros ->.
Qed.

Lemma permissive_empty_ballot_witness :
  UI.reachable part001 alice allSkipped
  ∧ Forall (λ kv, kv.2 = None) (selections allSkipped)
  ∧ result (Part001.submitVote alice (world 100 (Some 200)) allSkipped)
    = (Submitted, [Supabase.MarkVoted 9]).
Proof.
  assert (Forall (λ kv : string * option Z, kv.2 = None) (selections allSkipped))
    as Hnull by (repeat constructor).
  split; [apply session_reachable; vm_compute; by eexists|]. split; [exact Hnull|].
  exact (proj2 (permissive_empty_ballot alice (world 100 (Some 200)) allSkipped
                  Hnull eq_refl) eq_refl).
Defined.

(** ** The selection store, continued *)

Lemma select_entry_other p c s q :
  q ≠ p → entry (handleSelectCandidate p c s) q = entry s q.
Proof.
  intros Hne. unfold entry, handleSelectCandidate; simpl.
  rewrite obj_get_set_ne by done. f_equal.
  apply bool_decide_ext. rewrite elem_of_difference, elem_of_singleton. intuition.
Qed.

Lemma toggleSkip000_entry_other p s q :
  q ≠ p → entry (Part000.toggleSkip p s) q = entry s q.
Proof.
  intros Hne. unfold entry, Part000.toggleSkip.
  destruct (decide (p ∈ skipped s)); simpl;
    (rewrite obj_get_set_ne by done); f_equal; apply bool_decide_ext.
  - rewrite elem_of_difference, elem_of_singleton. intuition.
  - rewrite elem_of_union, elem_of_singleton. intuition.
Qed.

Lemma toggleSkip001_entry_other p s q :
  q ≠ p → entry (Part001.toggleSkip p s) q = entry s q.
Proof.
  intros Hne. unfold entry, Part001.toggleSkip.
  destruct (decide (p ∈ skipped s)); simpl.
  - f_equal. apply bool_decide_ext.
    rewrite elem_of_difference, elem_of_singleton. intuition.
  - rewrite obj_get_set_ne by done. f_equal. apply bool_decide_ext.
    rewrite elem_of_union, elem_of_singleton. intuition.
Qed.

(** X1. Selecting or skipping one position leaves the entry of every
    other position, and the list of positions, as they were. *)
Theorem other_positions_untouched p c s q :
  q ≠ p →
  (entry (handleSelectCandidate p c s) q = entry s q
   ∧ entry (Part000.toggleSkip p s) q = entry s q
   ∧ entry (Part001.toggleSkip p s) q = entry s q)
  ∧ positions (handleSelectCandidate p c s) = positions s
  ∧ positions (Part000.toggleSkip p s) = positions s
  ∧ positions (Part001.toggleSkip p s) = positions s.
Proof.
  intros Hne. split_and!.
  - by apply select_entry_other.
  - by apply toggleSkip000_entry_other.
  - by apply toggleSkip001_entry_other.
  - done.
  - apply (toggleSkip000_fields p s).
  - apply (toggleSkip001_fields p s).
Qed.

Lemma other_positions_untouched_witness :
  entry (handleSelectCandidate "Best Dish" 3 half) "Best Speaker"
  = (Some (Some 1), false)
  ∧ entry (Part000.toggleSkip "Best Dish" half) "Best Speaker"
    = (Some (Some 1), false).
Proof.
  destruct (other_positions_untouched "Best Dish" 3 half "Best Speaker"
              ltac:(discriminate)) as [(H1 & H2 & _) _].
  split; [exact H1 | exact H2].
Defined.

Lemma delete_delete (X : gset string) p : X ∖ {[p]} ∖ {[p]} = X ∖ {[p]}.
Proof.
  apply set_eq. intros q. rewrite !elem_of_difference, elem_of_singleton. intuition.
Qed.

Lemma add_then_delete (X : gset string) p : (X ∪ {[p]}) ∖ {[p]} = X ∖ {[p]}.
Proof.
  apply set_eq. intros q.
  rewrite !elem_of_difference, elem_of_union, elem_of_singleton. intuition.
Qed.

(** X2. A selection overrides whatever was done to the position before:
    selecting [c] after another selection or after a click on Skip (in
    either revision of [toggleSkip], whether it set or cleared the skip
    mark) gives the same session as selecting [c] directly. *)
Theorem select_overrides p c c' s :
  handleSelectCandidate p c (handleSelectCandidate p c' s)
  = handleSelectCandidate p c s
  ∧ handleSelectCandidate p c (Part000.toggleSkip p s)
    = handleSelectCandidate p c s
  ∧ handleSelectCandidate p c (Part001.toggleSkip p s)
    = handleSelectCandidate p c s.
Proof.
  split_and!.
  - apply session_eq; simpl; try done.
    + apply obj_set_set.
    + apply delete_delete.
  - pose proof (toggleSkip000_fields p s) as HF. simpl in HF.
    apply session_eq; simpl; try (intuition congruence);
      unfold Part000.toggleSkip; destruct (decide (p ∈ skipped s)); simpl.
    + apply obj_set_set.
    + apply obj_set_set.
    + apply delete_delete.
    + apply add_then_delete.
  - pose proof (toggleSkip001_fields p s) as HF. simpl in HF.
    apply session_eq; simpl; try (intuition congruence);
      unfold Part001.toggleSkip; destruct (decide (p ∈ skipped s)); simpl.
    + done.
    + apply obj_set_set.
    + apply delete_delete.
    + apply add_then_delete.
Qed.

(** ** Page navigation, continued *)

Lemma setCurrentPage_pred_S s : setCurrentPage pred (setCurrentPage S s) = s.
Proof. by destruct s. Qed.

Lemma setCurrentPage_S_pred s :
  (0 < currentPage s)%nat → setCurrentPage S (setCurrentPage pred s) = s.
Proof.
  destruct s as [? ? ? n ? ? ? ? ? ?]; simpl. intros Hn.
  unfold setCurrentPage; simpl. f_equal. lia.
Qed.

(** X3. [handleNext] and [handleBack] keep the page between [0] and
    [positions.length]: each undoes the other away from the two ends,
    [handleNext] does nothing on the review page and [handleBack]
    nothing on the first page. *)
Theorem next_back_within_bounds s :
  (currentPage s ≤ length (positions s))%nat →
  (currentPage (handleNext s) ≤ length (positions s))%nat
  ∧ (currentPage (handleBack s) ≤ length (positions s))%nat
  ∧ ((currentPage s < length (positions s))%nat → handleBack (handleNext s) = s)
  ∧ ((0 < currentPage s)%nat → handleNext (handleBack s) = s)
  ∧ (currentPage s = length (positions s) → handleNext s = s)
  ∧ (currentPage s = 0%nat → handleBack s = s).
Proof.
  intros Hle. unfold handleNext, handleBack. split_and!.
  - case_bool_decide; simpl; lia.
  - case_bool_decide; simpl; lia.
  - intros Hlt. rewrite (bool_decide_true (currentPage s < _)%nat) by done.
    simpl. apply setCurrentPage_pred_S.
  - intros Hpos. rewrite (bool_decide_true (0 < currentPage s)%nat) by done.
    simpl. rewrite bool_decide_true by lia. by apply setCurrentPage_S_pred.
  - intros Heq. rewrite bool_decide_false; [done | lia].
  - intros Heq. rewrite bool_decide_false; [done | lia].
Qed.

Lemma next_back_within_bounds_witness :
  (currentPage half ≤ length (positions half))%nat
  ∧ handleBack (handleNext half) = half
  ∧ handleNext answered = answered
  ∧ handleBack half = half.
Proof.
  assert (currentPage half ≤ length (positions half))%nat as Hh
    by (vm_compute; lia).
  assert (currentPage answered ≤ length (positions answered))%nat as Ha
    by (vm_compute; lia).
  split; [exact Hh|].
  destruct (next_back_within_bounds half Hh) as (_ & _ & H1 & _ & _ & H2).
  destruct (next_back_within_bounds answered Ha) as (_ & _ & _ & _ & H3 & _).
  split; [exact (H1 ltac:(vm_compute; lia))|].
  split; [exact (H3 eq_refl) | exact (H2 eq_refl)].
Defined.

(** ** Loading the catalog *)

Lemma Set_spread_from (acc xs : list string) :
  foldl (λ acc x, if decide (x ∈ acc) then acc else acc ++ [x]) acc xs
  = acc ++ filter (λ y, y ∉ acc) (firstOccurrences xs).
Proof.
  revert acc. induction xs as [|x xs IH]; intros acc; simpl.
  - by rewrite filter_nil, app_nil_r.
  - rewrite IH, filter_cons. destruct (decide (x ∈ acc)) as [Hin|Hout].
    + rewrite decide_False by (by intros ?). f_equal.
      rewrite list_filter_filter. apply list_filter_iff.
      intros y. split; [intros ?; split; [done | by intros ->] | by intros [? _]].
    + rewrite decide_True by done. rewrite <- app_assoc. simpl. do 2 f_equal.
      rewrite list_filter_filter. apply list_filter_iff. intros y.
      rewrite elem_of_app, list_elem_of_singleton. intuition.
Qed.

Lemma Set_spread_firstOccurrences xs : Set_spread xs = firstOccurrences xs.
Proof.
  unfold Set_spread. rewrite Set_spread_from. simpl.
  induction (firstOccurrences xs) as [|y ys IH]; [done|].
  rewrite filter_cons_True by apply not_elem_of_nil. by rewrite IH.
Qed.

Lemma firstOccurrences_elem xs x : x ∈ firstOccurrences xs ↔ x ∈ xs.
Proof.
  induction xs as [|y xs IH]; simpl; [done|].
  rewrite !elem_of_cons, list_elem_of_filter, IH.
  destruct (decide (x = y)); intuition.
Qed.

Lemma initialSelections_get ps p :
  NoDup ps →
  JS.obj_get (initialSelections ps) p
  = if decide (p ∈ ps ∧ p ≠ "__proto__") then Some None else None.
Proof.
  intros Hnd. pose proof (initialSelections_keys ps Hnd) as Hk.
  destruct (decide (p ∈ ps ∧ p ≠ "__proto__")) as [[Hin Hne]|Hout].
  - destruct (JS.obj_get (initialSelections ps) p) as [[c|]|] eqn:E; [|done|].
    + by apply obj_get_null in E; [|apply initialSelections_null].
    + apply obj_get_None in E. rewrite Hk, list_elem_of_filter in E.
      by destruct E.
  - apply obj_get_None. rewrite Hk, list_elem_of_filter. tauto.
Qed.

Lemma selectedCount_null s :
  Forall (λ kv, kv.2 = None) (selections s) → selectedCount s = 0%nat.
Proof.
  intros Hnull. unfold selectedCount.
  rewrite (Object_values_Permutation (selections s)).
  induction Hnull as [|[k v] o Hv _ IH]; [done|]. simpl in Hv. subst.
  csimpl. by rewrite filter_cons_False by (by intros ?).
Qed.

(** X4. After a successful fetch the positions are the distinct position
    labels of the candidates, in the order of their first occurrence,
    each once; the candidates are stored as fetched. Both revisions of
    [loadCandidates] agree. *)
Theorem loaded_positions data s :
  let r := Supabase.mkResponse (Some data) None in
  let labels := Candidate.position <$> data in
  (positions (loadCandidates r s) = firstOccurrences labels
   ∧ candidates (loadCandidates r s) = data
   ∧ positions (Part001.loadCandidates r s) = firstOccurrences labels
   ∧ candidates (Part001.loadCandidates r s) = data)
  ∧ NoDup (firstOccurrences labels)
  ∧ ∀ p, p ∈ firstOccurrences labels ↔ ∃ c, c ∈ data ∧ Candidate.position c = p.
Proof.
  intros r labels. split_and!.
  - simpl. apply Set_spread_firstOccurrences.
  - done.
  - simpl. apply Set_spread_firstOccurrences.
  - done.
  - rewrite <- Set_spread_firstOccurrences. apply Set_spread_NoDup.
  - intros p. rewrite firstOccurrences_elem. unfold labels.
    rewrite list_elem_of_fmap. split; intros (c & H1 & H2); exists c; by subst.
Qed.

(** X5. A successful fetch resets the selection store: its own keys
    become the new positions other than ["__proto__"] (the assignment
    [acc["__proto__"] = null] creates no key), in their order; each of
    these positions is [null] and [selectedCount] is [0]. So when no
    candidate has the position ["__proto__"], the store is keyed by the
    new positions. The skip marks and the current page are not reset. *)
Theorem loaded_selections data s p :
  let r := Supabase.mkResponse (Some data) None in
  let s' := loadCandidates r s in
  (JS.keys (selections s') = filter (λ q, q ≠ "__proto__") (positions s')
   ∧ ("__proto__" ∉ positions s' → keyed s')
   ∧ entry s' p = (if decide (p ∈ positions s' ∧ p ≠ "__proto__")
                   then Some None else None,
                   bool_decide (p ∈ skipped s))
   ∧ selectedCount s' = 0%nat
   ∧ currentPage s' = currentPage s)
  ∧ selections (Part001.loadCandidates r s) = selections s'
  ∧ skipped (Part001.loadCandidates r s) = skipped s
  ∧ currentPage (Part001.loadCandidates r s) = currentPage s.
Proof.
  intros r s'. split; [|done]. split_and!.
  - simpl. apply initialSelections_keys, Set_spread_NoDup.
  - apply owned_keyed. apply (loaded_sound data s).
  - unfold entry. simpl. f_equal.
    apply initialSelections_get, Set_spread_NoDup.
  - apply selectedCount_null. simpl. apply initialSelections_null.
  - done.
Qed.

Lemma loaded_selections_witness :
  keyed (loadCandidates fetched mount)
  ∧ entry (loadCandidates fetched mount) "Best Dish" = (Some None, false)
  ∧ entry (loadCandidates fetched mount) "__proto__" = (None, false).
Proof.
  destruct (loaded_selections catalog mount "Best Dish") as ((_ & Hk & Hd & _) & _).
  destruct (loaded_selections catalog mount "__proto__") as ((_ & _ & Hp & _) & _).
  assert (positions (loadCandidates fetched mount) = ["Best Speaker"; "Best Dish"])
    as E by (vm_compute; reflexivity).
  unfold fetched in *. split_and!.
  - apply Hk. rewrite E.
    by intros [?|[?|?%elem_of_nil]%elem_of_cons]%elem_of_cons.
  - rewrite Hd, E. reflexivity.
  - rewrite Hp, E. reflexivity.
Defined.

(** ** The controls, continued *)

Lemma isPositionSelected_local s s' :
  positions s = positions s' → currentPage s = currentPage s' →
  (∀ p, currentPosition s = Some p → entry s p = entry s' p) →
  Part000.isPositionSelected s = Part000.isPositionSelected s'.
Proof.
  intros Hp Hc He. unfold Part000.isPositionSelected.
  assert (currentPosition s' = currentPosition s) as ->
    by (unfold currentPosition; by rewrite Hp, Hc).
  destruct (currentPosition s) as [p|] eqn:E; [|done].
  specialize (He p eq_refl). unfold entry in He.
  injection He as H1 H2. by rewrite H1.
Qed.

Lemma canProceed_local s s' :
  positions s = positions s' → currentPage s = currentPage s' →
  (∀ p, currentPosition s = Some p → entry s p = entry s' p) →
  Part001.canProceed s = Part001.canProceed s'.
Proof.
  intros Hp Hc He. unfold Part001.canProceed.
  assert (currentPosition s' = currentPosition s) as ->
    by (unfold currentPosition; by rewrite Hp, Hc).
  destruct (currentPosition s) as [p|] eqn:E; [|done].
  specialize (He p eq_refl). unfold entry in He.
  injection He as H1 H2. by rewrite H1, H2.
Qed.

Lemma skipped_select p c s :
  skipped (handleSelectCandidate p c s) ⊆ skipped s.
Proof. simpl. intros q. rewrite elem_of_difference. by intros [? _]. Qed.

Lemma skipped_toggleSkip000 p s :
  skipped (Part000.toggleSkip p s) ⊆ skipped s ∪ {[p]}.
Proof.
  unfold Part000.toggleSkip. destruct (decide _); simpl; intros q.
  - rewrite elem_of_difference, elem_of_union. intuition.
  - done.
Qed.

Lemma skipped_toggleSkip001 p s :
  skipped (Part001.toggleSkip p s) ⊆ skipped s ∪ {[p]}.
Proof.
  unfold Part001.toggleSkip. destruct (decide _); simpl; intros q.
  - rewrite elem_of_difference, elem_of_union. intuition.
  - done.
Qed.

Lemma part000_wired : Wired part000.
Proof.
  split; simpl.
  - intros r s. unfold loadCandidates.
    destruct (Supabase.error r); [done|]. by destruct (Supabase.data r).
  - intros p c s. split_and!; [done..|apply (skipped_select p c s)].
  - intros p c s q. apply select_entry_other.
  - intros p s. pose proof (toggleSkip000_fields p s) as HF. simpl in HF.
    split_and!; [intuition..|apply (skipped_toggleSkip000 p s)].
  - intros p s q. apply toggleSkip000_entry_other.
  - intros voter W s. unfold Part000.handleSubmit. by destruct (run _) as [[] w].
  - apply isPositionSelected_local.
Qed.

Lemma part001_wired : Wired part001.
Proof.
  split; simpl.
  - intros r s. unfold Part001.loadCandidates.
    destruct (Supabase.error r); [done|]. by destruct (Supabase.data r).
  - intros p c s. split_and!; [done..|apply (skipped_select p c s)].
  - intros p c s q. apply select_entry_other.
  - intros p s. pose proof (toggleSkip001_fields p s) as HF. simpl in HF.
    split_and!; [intuition..|apply (skipped_toggleSkip001 p s)].
  - intros p s q. apply toggleSkip001_entry_other.
  - intros voter W s. unfold Part001.submitVote. by destruct (run _) as [[] w].
  - apply canProceed_local.
Qed.

Lemma part004_wired : Wired part004.
Proof.
  split; simpl.
  - intros r s. unfold loadCandidates.
    destruct (Supabase.error r); [done|]. by destruct (Supabase.data r).
  - intros p c s. split_and!; [done..|apply (skipped_select p c s)].
  - intros p c s q. apply select_entry_other.
  - intros p s. pose proof (toggleSkip000_fields p s) as HF. simpl in HF.
    split_and!; [intuition..|apply (skipped_toggleSkip000 p s)].
  - intros p s q. apply toggleSkip000_entry_other.
  - intros voter W s. unfold Part004.handleSubmit. by destruct (run _) as [[] w].
  - apply canProceed_local.
Qed.

Section wired.
Variables (R : UI.Revision) (voter : Voter.t).
Hypothesis wired : Wired R.
Hypothesis reach_sound : ∀ s, UI.reachable R voter s → sound s.

Lemma rendersBallot_loaded s : UI.rendersBallot s = true → isLoading s = false.
Proof.
  unfold UI.rendersBallot. destruct (isLoading s); [done|done].
Qed.

Lemma step_tidy e s s' : tidy s → UI.step R voter e s = Some s' → tidy s'.
Proof using wired.
  intros (Hm & Hle & Hsub) Hstep.
  destruct e; simpl in Hstep.
  - (* Fetched *)
    destruct (isLoading s) eqn:El; [|done]. simplify_eq.
    rewrite (Hm eq_refl). destruct (load_keeps R wired r mount) as (Hc & Hs & Hl).
    split_and!.
    + by rewrite Hl.
    + rewrite Hc. simpl. lia.
    + intros p. rewrite Hs. simpl. by intros ?%not_elem_of_empty.
  - (* ClickCandidate *)
    destruct (UI.rendersBallot s && negb (isLastPage s)) eqn:Eg; [|done].
    apply andb_prop in Eg as [Hr%rendersBallot_loaded _].
    destruct (candidates s !! nth) as [c|]; [|done]. simpl in Hstep.
    case_bool_decide; [|done]. simplify_eq.
    destruct (select_keeps R wired (Candidate.position c) (Candidate.id c) s)
      as (Hp & Hc & Hl & Hs).
    split_and!.
    + by rewrite Hl, Hr.
    + by rewrite Hp, Hc.
    + intros p Hin. rewrite Hp. apply Hsub. by apply Hs.
  - (* ClickSkip *)
    destruct (UI.rendersBallot s && negb (isLastPage s)) eqn:Eg; [|done].
    apply andb_prop in Eg as [Hr%rendersBallot_loaded _].
    destruct (currentPosition s) as [p|] eqn:Ep; [|done]. simpl in Hstep.
    simplify_eq. destruct (skip_keeps R wired p s) as (Hp & Hc & Hl & Hs).
    split_and!.
    + by rewrite Hl, Hr.
    + by rewrite Hp, Hc.
    + intros q Hin. rewrite Hp. apply Hs in Hin.
      apply elem_of_union in Hin as [Hin|Hq%elem_of_singleton]; [by apply Hsub|].
      subst q. by eapply list_elem_of_lookup_2.
  - (* ClickNext *)
    destruct (UI.rendersBallot s && negb (isLastPage s) && UI.nextEnabled R s)
      eqn:Eg; [|done].
    apply andb_prop in Eg as [[Hr%rendersBallot_loaded _]%andb_prop _].
    simplify_eq. unfold handleNext, tidy. case_bool_decide; simpl.
    + split_and!; [by rewrite Hr | lia | done].
    + split_and!; [by rewrite Hr | lia | done].
  - (* ClickBack *)
    destruct (UI.rendersBallot s && negb (isFirstPage s)) eqn:Eg; [|done].
    apply andb_prop in Eg as [Hr%rendersBallot_loaded _].
    simplify_eq. unfold handleBack, tidy. case_bool_decide; simpl.
    + split_and!; [by rewrite Hr | lia | done].
    + split_and!; [by rewrite Hr | lia | done].
  - (* ClickEdit *)
    destruct (UI.rendersBallot s && isLastPage s
              && bool_decide (idx < length (positions s))%nat) eqn:Eg; [|done].
    apply andb_prop in Eg as [[Hr%rendersBallot_loaded _]%andb_prop Hi].
    apply bool_decide_eq_true in Hi. simplify_eq. unfold tidy. simpl.
    split_and!; [by rewrite Hr | lia | done].
  - (* SubmitForm *)
    destruct (UI.rendersBallot s && isLastPage s && negb (UI.submitOff R s))
      eqn:Eg; [|done].
    apply andb_prop in Eg as [[Hr%rendersBallot_loaded _]%andb_prop _].
    simplify_eq.
    destruct (submit_keeps R wired voter W s) as (Hp & Hc & Hl & Hs & _).
    split_and!.
    + by rewrite Hl, Hr.
    + by rewrite Hp, Hc.
    + intros p. rewrite Hs, Hp. apply Hsub.
Qed.

Lemma reachable_tidy s : UI.reachable R voter s → tidy s.
Proof using wired.
  induction 1 as [|e s s' _ IH Hstep].
  - split_and!; [done | simpl; lia | by intros p ?%not_elem_of_empty].
  - by eapply step_tidy.
Qed.

Lemma setCurrentPage_same s : setCurrentPage (λ _, currentPage s) s = s.
Proof. by destruct s. Qed.

Lemma entry_setCurrentPage f s q : entry (setCurrentPage f s) q = entry s q.
Proof. done. Qed.

(** The gate on page [i] only looks at the position of that page. *)
Lemma gate_at i s s' :
  positions s' = positions s →
  (∀ q, positions s !! i = Some q → entry s' q = entry s q) →
  UI.nextEnabled R (setCurrentPage (λ _, i) s')
  = UI.nextEnabled R (setCurrentPage (λ _, i) s).
Proof using wired.
  intros Hp He. apply (gate_local R wired); simpl; [done | done |].
  intros q. unfold currentPosition; simpl. rewrite Hp. intros Hq.
  rewrite !entry_setCurrentPage. by apply He.
Qed.

Lemma step_passed e s s' :
  sound s → tidy s → passed R s → UI.step R voter e s = Some s' → passed R s'.
Proof using wired.
  intros [(Hnd & _) _] (Hm & Hle & _) Hpass Hstep.
  destruct e; simpl in Hstep.
  - (* Fetched *)
    destruct (isLoading s) eqn:El; [|done]. simplify_eq.
    rewrite (Hm eq_refl). intros i.
    destruct (load_keeps R wired r mount) as (-> & _). simpl. lia.
  - (* ClickCandidate *)
    destruct (UI.rendersBallot s && negb (isLastPage s)); [|done].
    destruct (candidates s !! nth) as [c|]; [|done]. simpl in Hstep.
    case_bool_decide as Hcur; [|done]. simplify_eq.
    destruct (select_keeps R wired (Candidate.position c) (Candidate.id c) s)
      as (Hp & Hc & _).
    intros i. rewrite Hc. intros Hi. rewrite (gate_at i s); [by apply Hpass | done |].
    intros q Hq. apply (select_other R wired). intros ->.
    unfold currentPosition in Hcur.
    pose proof (NoDup_lookup _ _ _ _ Hnd Hq Hcur). lia.
  - (* ClickSkip *)
    destruct (UI.rendersBallot s && negb (isLastPage s)); [|done].
    destruct (currentPosition s) as [p|] eqn:Hcur; [|done]. simpl in Hstep.
    simplify_eq. destruct (skip_keeps R wired p s) as (Hp & Hc & _).
    intros i. rewrite Hc. intros Hi. rewrite (gate_at i s); [by apply Hpass | done |].
    intros q Hq. apply (skip_other R wired). intros ->.
    unfold currentPosition in Hcur.
    pose proof (NoDup_lookup _ _ _ _ Hnd Hq Hcur). lia.
  - (* ClickNext *)
    destruct (UI.rendersBallot s && negb (isLastPage s) && UI.nextEnabled R s)
      eqn:Eg; [|done].
    apply andb_prop in Eg as [_ Hgate]. simplify_eq.
    unfold handleNext. case_bool_decide; [|done].
    intros i; simpl. intros Hi.
    destruct (decide (i = currentPage s)) as [->|Hne].
    + change (UI.nextEnabled R (setCurrentPage (λ _, currentPage s) s) = true).
      by rewrite setCurrentPage_same.
    + apply (Hpass i). lia.
  - (* ClickBack *)
    destruct (UI.rendersBallot s && negb (isFirstPage s)); [|done].
    simplify_eq. unfold handleBack. case_bool_decide; [|done].
    intros i; simpl. intros Hi. apply (Hpass i). lia.
  - (* ClickEdit *)
    destruct (UI.rendersBallot s && isLastPage s
              && bool_decide (idx < length (positions s))%nat) eqn:Eg; [|done].
    apply andb_prop in Eg as [[_ Hlast]%andb_prop Hi].
    apply bool_decide_eq_true in Hi, Hlast. simplify_eq.
    intros i; simpl. intros Hlt. apply (Hpass i). lia.
  - (* SubmitForm *)
    destruct (UI.rendersBallot s && isLastPage s && negb (UI.submitOff R s));
      [|done].
    simplify_eq.
    destruct (submit_keeps R wired voter W s) as (Hp & Hc & _ & Hs & Hsel).
    intros i. rewrite Hc. intros Hi. rewrite (gate_at i s); [by apply Hpass | done |].
    intros q _. unfold entry. by rewrite Hs, Hsel.
Qed.

Lemma reachable_passed s : UI.reachable R voter s → passed R s.
Proof using wired reach_sound.
  induction 1 as [|e s s' Hr IH Hstep].
  - intros i. simpl. lia.
  - eapply step_passed; eauto using reachable_tidy.
Qed.

End wired.

(** The skip marks against the store. *)

Lemma handleSelectCandidate_nulled p c s :
  nulled s → nulled (handleSelectCandidate p c s).
Proof.
  intros Hn q. unfold handleSelectCandidate; simpl.
  rewrite elem_of_difference, not_elem_of_singleton. intros [Hq Hne].
  rewrite obj_get_set_ne by done. by apply Hn.
Qed.

Lemma toggleSkip000_nulled p s : nulled s → nulled (Part000.toggleSkip p s).
Proof.
  intros Hn q. unfold Part000.toggleSkip.
  destruct (decide (p ∈ skipped s)) as [Hin|Hout]; simpl.
  - rewrite elem_of_difference, not_elem_of_singleton. intros [Hq Hne].
    rewrite obj_get_set_ne by done. by apply Hn.
  - rewrite elem_of_union, elem_of_singleton.
    destruct (decide (p = q)) as [<-|Hne]; [by rewrite obj_get_set_eq|].
    rewrite obj_get_set_ne by done. intros [Hq|?]; [by apply Hn | congruence].
Qed.

Lemma toggleSkip001_nulled p s : nulled s → nulled (Part001.toggleSkip p s).
Proof.
  intros Hn q. unfold Part001.toggleSkip.
  destruct (decide (p ∈ skipped s)) as [Hin|Hout]; simpl.
  - rewrite elem_of_difference. intros [Hq _]. by apply Hn.
  - rewrite elem_of_union, elem_of_singleton.
    destruct (decide (p = q)) as [<-|Hne]; [by rewrite obj_get_set_eq|].
    rewrite obj_get_set_ne by done. intros [Hq|?]; [by apply Hn | congruence].
Qed.

Section marks.
Variables (R : UI.Revision) (voter : Voter.t).
Hypothesis wired : Wired R.
Hypothesis select_nulled : ∀ p c s, nulled s → nulled (UI.select R p c s).
Hypothesis skip_nulled : ∀ p s, nulled s → nulled (UI.skip R p s).

Lemma step_nulled e s s' :
  tidy s → nulled s → UI.step R voter e s = Some s' → nulled s'.
Proof using All.
  intros (Hm & _) Hn Hstep. destruct e; simpl in Hstep.
  - destruct (isLoading s) eqn:El; [|done]. simplify_eq.
    rewrite (Hm eq_refl). intros p.
    destruct (load_keeps R wired r mount) as (_ & -> & _).
    by intros ?%not_elem_of_empty.
  - destruct (UI.rendersBallot s && negb (isLastPage s)); [|done].
    destruct (candidates s !! nth) as [c|]; [|done]. simpl in Hstep.
    case_bool_decide; [|done]. simplify_eq. by apply select_nulled.
  - destruct (UI.rendersBallot s && negb (isLastPage s)); [|done].
    destruct (currentPosition s) as [p|]; [|done]. simpl in Hstep.
    simplify_eq. by apply skip_nulled.
  - destruct (UI.rendersBallot s && negb (isLastPage s) && UI.nextEnabled R s);
      [|done].
    simplify_eq. unfold handleNext. by case_bool_decide.
  - destruct (UI.rendersBallot s && negb (isFirstPage s)); [|done].
    simplify_eq. unfold handleBack. by case_bool_decide.
  - destruct (UI.rendersBallot s && isLastPage s
              && bool_decide (idx < length (positions s))%nat); [|done].
    by simplify_eq.
  - destruct (UI.rendersBallot s && isLastPage s && negb (UI.submitOff R s));
      [|done].
    simplify_eq.
    destruct (submit_keeps R wired voter W s) as (_ & _ & _ & Hs & Hsel).
    intros p. rewrite Hs, Hsel. apply Hn.
Qed.

Lemma reachable_nulled s : UI.reachable R voter s → nulled s.
Proof using All.
  induction 1 as [|e s s' Hr IH Hstep].
  - by intros p ?%not_elem_of_empty.
  - eapply step_nulled; eauto using reachable_tidy.
Qed.

End marks.

Lemma reachable000_nulled voter s : UI.reachable part000 voter s → nulled s.
Proof.
  apply reachable_nulled; [apply part000_wired | |]; simpl;
    auto using handleSelectCandidate_nulled, toggleSkip000_nulled.
Qed.

Lemma reachable001_nulled voter s : UI.reachable part001 voter s → nulled s.
Proof.
  apply reachable_nulled; [apply part001_wired | |]; simpl;
    auto using handleSelectCandidate_nulled, toggleSkip001_nulled.
Qed.

Lemma reachable004_nulled voter s : UI.reachable part004 voter s → nulled s.
Proof.
  apply reachable_nulled; [apply part004_wired | |]; simpl;
    auto using handleSelectCandidate_nulled, toggleSkip000_nulled.
Qed.

Lemma reachable000_tidy voter s : UI.reachable part000 voter s → tidy s.
Proof. apply reachable_tidy, part000_wired. Qed.

Lemma reachable001_tidy voter s : UI.reachable part001 voter s → tidy s.
Proof. apply reachable_tidy, part001_wired. Qed.

Lemma reachable004_tidy voter s : UI.reachable part004 voter s → tidy s.
Proof. apply reachable_tidy, part004_wired. Qed.

(** X6. In every reachable session of a paginated revision the current
    page lies between [0] and [positions.length], every question page
    has a position (the handlers are never handed [undefined]), and only
    positions of the catalog are marked skipped. *)
Theorem page_within_bounds voter s :
  UI.reachable part000 voter s ∨ UI.reachable part001 voter s
  ∨ UI.reachable part004 voter s →
  (currentPage s ≤ length (positions s))%nat
  ∧ (isLastPage s = false → is_Some (currentPosition s))
  ∧ (∀ p, p ∈ skipped s → p ∈ positions s).
Proof.
  intros Hr. assert (tidy s) as (_ & Hle & Hsub).
  { destruct Hr as [Hr|[Hr|Hr]];
      eauto using reachable000_tidy, reachable001_tidy, reachable004_tidy. }
  split_and!; [done | | done].
  intros Hlast%bool_decide_eq_false. apply lookup_lt_is_Some. lia.
Qed.

Lemma page_within_bounds_witness :
  (currentPage skippedFirst ≤ length (positions skippedFirst))%nat
  ∧ is_Some (currentPosition skippedFirst)
  ∧ ∀ p, p ∈ skipped skippedFirst → p ∈ positions skippedFirst.
Proof.
  destruct (page_within_bounds alice skippedFirst
              (or_introl skippedFirst_reachable)) as (H1 & H2 & H3).
  split; [exact H1|]. split; [exact (H2 eq_refl) | exact H3].
Defined.

(** X7. In [part_001] and [part_004] a voter cannot get past a question
    without addressing it: in every reachable session, each position
    before the current page whose label is neither empty nor
    ["__proto__"] either holds a candidate and is not marked skipped, or
    is marked skipped and holds [null]. On the review page this covers
    every such position. (For the empty label the gate is always open;
    for ["__proto__"] the store has no own entry after loading, and the
    read [selections[p] !== null] succeeds without one.) *)
Theorem pages_passed_are_addressed voter s i p :
  UI.reachable part001 voter s ∨ UI.reachable part004 voter s →
  (i < currentPage s)%nat → positions s !! i = Some p →
  p ≠ "" → p ≠ "__proto__" →
  (∃ c, entry s p = (Some (Some c), false)) ∨ entry s p = (Some None, true).
Proof.
  intros Hr Hi Hp Hne Hnp.
  assert (sound s ∧ passed part001 s) as [[Ho Hex] Hpass].
  { destruct Hr as [Hr|Hr].
    - split; [by eapply reachable001_sound|].
      eapply reachable_passed; eauto using part001_wired, reachable001_sound.
    - split; [by eapply reachable004_sound|].
      apply (reachable_passed part004 voter part004_wired
               (reachable004_sound voter) s Hr). }
  specialize (Hpass i Hi). simpl in Hpass.
  unfold Part001.canProceed, currentPosition in Hpass. simpl in Hpass.
  rewrite Hp in Hpass. destruct p as [|a p]; [done|]. simpl in Hpass.
  unfold entry. set (q := String a p) in *.
  assert (q ∈ JS.keys (selections s)) as Hkey.
  { apply owned_positions_keys; [done | | done].
    by eapply list_elem_of_lookup_2. }
  destruct (JS.obj_get (selections s) q) as [[c|]|] eqn:E.
  - left. exists c. f_equal. apply bool_decide_eq_false. intros Hs.
    by apply (Hex q c Hs).
  - right. simpl in Hpass. by rewrite Hpass.
  - by apply obj_get_None in E.
Qed.

Lemma pages_passed_are_addressed_witness :
  entry partial "Best Speaker" = (Some (Some 1), false)
  ∧ ((∃ c, entry partial "Best Dish" = (Some (Some c), false))
     ∨ entry partial "Best Dish" = (Some None, true)).
Proof.
  split; [reflexivity|].
  exact (pages_passed_are_addressed alice partial 1 "Best Dish"
           (or_introl partial_reachable) ltac:(vm_compute; lia) eq_refl
           ltac:(discriminate) ltac:(discriminate)).
Defined.

(** X8. In [part_000] the gate is stricter: in every reachable session,
    each position before the current page whose label is neither empty
    nor ["__proto__"] holds a candidate and is not marked skipped. *)
Theorem pages_passed_are_chosen_in_part000 voter s i p :
  UI.reachable part000 voter s →
  (i < currentPage s)%nat → positions s !! i = Some p →
  p ≠ "" → p ≠ "__proto__" →
  ∃ c, entry s p = (Some (Some c), false).
Proof.
  intros Hr Hi Hp Hne Hnp.
  pose proof (reachable000_sound voter s Hr) as [Ho Hex].
  pose proof (reachable_passed part000 voter part000_wired
                (reachable000_sound voter) s Hr i Hi) as Hpass.
  simpl in Hpass. unfold Part000.isPositionSelected, currentPosition in Hpass.
  simpl in Hpass. rewrite Hp in Hpass. destruct p as [|a p]; [done|].
  simpl in Hpass. unfold entry. set (q := String a p) in *.
  assert (q ∈ JS.keys (selections s)) as Hkey.
  { apply owned_positions_keys; [done | | done].
    by eapply list_elem_of_lookup_2. }
  destruct (JS.obj_get (selections s) q) as [[c|]|] eqn:E.
  - exists c. f_equal. apply bool_decide_eq_false. intros Hs.
    by apply (Hex q c Hs).
  - done.
  - by apply obj_get_None in E.
Qed.

Lemma pages_passed_are_chosen_in_part000_witness :
  ∃ c, entry answered "Best Dish" = (Some (Some c), false).
Proof.
  exact (pages_passed_are_chosen_in_part000 alice answered 1 "Best Dish"
           answered_reachable ltac:(vm_compute; lia) eq_refl
           ltac:(discriminate) ltac:(discriminate)).
Defined.

(** ** Counters and the submit button *)

Lemma values_plus_null_marks (o : JS.Obj) (X : gset string) :
  (∀ p, p ∈ X → JS.obj_get o p = Some None) →
  (length (filter (λ v, v ≠ None) o.*2) + size X ≤ length o)%nat.
Proof.
  revert X. induction o as [|[k v] o IH]; intros X HX.
  - assert (X = ∅) as ->.
    { apply set_eq. intros p. split; [|by intros ?%not_elem_of_empty].
      intros Hp. by specialize (HX p Hp). }
    rewrite size_empty. simpl. lia.
  - csimpl. destruct v as [c|].
    + rewrite filter_cons_True by done. simpl.
      assert (∀ p, p ∈ X → JS.obj_get o p = Some None) as HX'.
      { intros p Hp. specialize (HX p Hp). simpl in HX.
        destruct (decide (k = p)); [done|done]. }
      specialize (IH X HX'). lia.
    + rewrite filter_cons_False by (by intros ?). simpl.
      assert (∀ p, p ∈ X ∖ {[k]} → JS.obj_get o p = Some None) as HX'.
      { intros p [Hp Hk%not_elem_of_singleton]%elem_of_difference.
        specialize (HX p Hp). simpl in HX. by rewrite decide_False in HX. }
      specialize (IH _ HX').
      assert (size X ≤ size (X ∖ {[k]}) + 1)%nat; [|lia].
      rewrite <- (size_singleton (C:=gset string) k), <- size_union.
      * apply subseteq_size. intros p Hp.
        rewrite elem_of_union, elem_of_difference, elem_of_singleton.
        destruct (decide (p = k)); intuition.
      * intros p [_ Hp]%elem_of_difference Hk. done.
Qed.

Lemma selectedCount_values s :
  selectedCount s = length (filter (λ v, v ≠ None) (selections s).*2).
Proof.
  unfold selectedCount. by rewrite (Object_values_Permutation (selections s)).
Qed.

Lemma selectedCount_filled s :
  selectedCount s = length (JS.filter_number (JS.Object_values (selections s))).
Proof.
  unfold selectedCount, JS.filter_number.
  induction (JS.Object_values (selections s)) as [|[c|] vs IH]; [done| |].
  - rewrite filter_cons_True by done. csimpl. by rewrite IH.
  - rewrite filter_cons_False by (by intros ?). by csimpl.
Qed.

(** X9. In every reachable session of [part_001] and [part_004] the
    progress counter [completedCount = selectedCount + skipped.size] is
    at most [positions.length]. *)
Theorem completedCount_within_positions voter s :
  UI.reachable part001 voter s ∨ UI.reachable part004 voter s →
  (completedCount s ≤ length (positions s))%nat.
Proof.
  intros Hr.
  assert (sound s ∧ nulled s) as [[Ho _] Hn].
  { destruct Hr as [Hr|Hr]; split;
      eauto using reachable001_sound, reachable004_sound,
        reachable001_nulled, reachable004_nulled. }
  unfold completedCount. rewrite selectedCount_values.
  etrans; [by apply values_plus_null_marks | by apply owned_length].
Qed.

Lemma completedCount_within_positions_witness :
  (completedCount allSkipped ≤ length (positions allSkipped))%nat.
Proof.
  apply (completedCount_within_positions alice allSkipped).
  left. apply session_reachable. vm_compute. by eexists.
Defined.

(** X10. With the store keyed by the positions, [selectedCount] never
    exceeds [positions.length], and the submit button of [part_000] and
    [part_004] is enabled exactly when no submission is running and
    every position holds a candidate. *)
Theorem submit_button_enabled_iff_complete s :
  keyed s →
  (selectedCount s ≤ length (positions s))%nat
  ∧ (Part000.submitDisabled s = false ↔ isSubmitting s = false ∧ complete s)
  ∧ (Part004.submitDisabled s = false ↔ isSubmitting s = false ∧ complete s).
Proof.
  intros Hk.
  assert (selectedCount s ≤ length (positions s))%nat as Hle.
  { rewrite selectedCount_filled. destruct Hk as [Hk _]. rewrite <- Hk.
    unfold JS.keys. rewrite length_fmap, <- (length_fmap snd).
    rewrite <- (Object_values_Permutation (selections s)).
    apply filter_number_length. }
  assert (Part000.submitDisabled s = false ↔ isSubmitting s = false ∧ complete s).
  { unfold Part000.submitDisabled.
    rewrite orb_false_iff, bool_decide_eq_false, <- (keyed_filled s Hk),
      <- selectedCount_filled.
    split; intros [? ?]; split; [done | lia | done | lia]. }
  done.
Qed.

Lemma submit_button_enabled_iff_complete_witness :
  Part000.submitDisabled answered = false ∧ Part000.submitDisabled half = true.
Proof.
  pose proof (submit_button_enabled_iff_complete answered
                answered_keyed)
    as (_ & Ha & _).
  split; [exact (proj2 Ha (conj eq_refl answered_complete)) | reflexivity].
Defined.

(** X11. Through the controls of [part_000] and [part_004] the alert
    for an incomplete ballot cannot be reached: whenever the submit
    button is available in a reachable session, the run of the handler
    does not end with [IncompleteBallot]. *)
Theorem incomplete_alert_unreachable voter W s s' :
  (UI.reachable part000 voter s
   ∧ UI.step part000 voter (UI.SubmitForm W) s = Some s')
  ∨ (UI.reachable part004 voter s
     ∧ UI.step part004 voter (UI.SubmitForm W) s = Some s') →
  complete s
  ∧ (result (Part000.handleSubmit voter W s)).1 ≠ IncompleteBallot
  ∧ (result (Part004.handleSubmit voter W s)).1 ≠ IncompleteBallot.
Proof.
  intros H.
  assert (owned s ∧ Part000.submitDisabled s = false) as [Ho Hon].
  { destruct H as [[Hr Hstep]|[Hr Hstep]]; simpl in Hstep.
    - split; [by apply (reachable000_sound voter s Hr)|].
      destruct (UI.rendersBallot s && isLastPage s); [|done]. simpl in Hstep.
      by destruct (Part000.submitDisabled s).
    - split; [by apply (reachable004_sound voter s Hr)|].
      destruct (UI.rendersBallot s && isLastPage s); [|done]. simpl in Hstep.
      unfold Part004.submitDisabled in Hstep.
      by destruct (Part000.submitDisabled s). }
  unfold Part000.submitDisabled in Hon.
  apply orb_false_iff in Hon as [_ Hge%bool_decide_eq_false].
  rewrite selectedCount_filled in Hge.
  destruct (owned_filled s Ho) as [Hlen Hc]; [lia|].
  split; [done|].
  rewrite Part000_result, Part004_result, run_submitAll.
  assert (bool_decide
            (length (JS.filter_number (JS.Object_values (selections s)))
             = length (positions s)) = true) as Hfull
    by (by apply bool_decide_eq_true).
  destruct (Supabase.error (voting_deadline W)); [done|].
  destruct (votingEnded W _); [done|]. simpl. rewrite Hfull.
  destruct (votes_insert W _); [done|]. simpl.
  by destruct (voters_update W _).
Qed.

Lemma incomplete_alert_unreachable_witness :
  complete answered
  ∧ (result (Part000.handleSubmit alice (world 100 (Some 200)) answered)).1
    ≠ IncompleteBallot.
Proof.
  destruct (incomplete_alert_unreachable alice (world 100 (Some 200)) answered
              (Part000.handleSubmit alice (world 100 (Some 200)) answered).1.1
              (or_introl (conj answered_reachable eq_refl))) as (H1 & H2 & _).
  split; [exact H1 | exact H2].
Defined.

(** ** Message screens and retries *)

(** X12. When the fetch of the candidates fails, returns nothing, or
    returns no candidate, the component shows a message only: in every
    paginated revision no control is available afterwards (there is no
    retry). *)
Theorem failed_load_is_final voter r e :
  Supabase.error r ≠ None ∨ Supabase.data r = None ∨ Supabase.data r = Some [] →
  UI.step part000 voter e (loadCandidates r mount) = None
  ∧ UI.step part001 voter e (Part001.loadCandidates r mount) = None
  ∧ UI.step part004 voter e (loadCandidates r mount) = None.
Proof.
  intros Hr.
  assert (UI.rendersBallot (loadCandidates r mount) = false
          ∧ isLoading (loadCandidates r mount) = false) as [H0 L0].
  { unfold loadCandidates.
    destruct (Supabase.error r) as [msg|]; [done|].
    destruct Hr as [?|[-> | ->]]; done. }
  assert (UI.rendersBallot (Part001.loadCandidates r mount) = false
          ∧ isLoading (Part001.loadCandidates r mount) = false) as [H1 L1].
  { unfold Part001.loadCandidates.
    destruct (Supabase.error r) as [msg|]; [done|].
    destruct Hr as [?|[-> | ->]]; done. }
  split_and!; by apply no_ballot_no_control.
Qed.

Lemma failed_load_is_final_witness :
  UI.step part000 alice (UI.Fetched fetched)
    (loadCandidates (Supabase.mkResponse None (Some "offline")) mount) = None
  ∧ UI.step part000 alice UI.ClickSkip
      (loadCandidates (Supabase.mkResponse (Some []) None) mount) = None.
Proof.
  split.
  - apply (failed_load_is_final alice
             (Supabase.mkResponse None (Some "offline")) (UI.Fetched fetched)).
    left. discriminate.
  - apply (failed_load_is_final alice
             (Supabase.mkResponse (Some []) None) UI.ClickSkip).
    right; right. reflexivity.
Defined.

(** X13. A run of the submit handler that does not succeed leaves the
    session of [part_001] and [part_004] exactly as it was, so the voter
    can submit again; in [part_000] a run that ends in the catch block
    stores the error, after which only the error message is rendered and
    no control is available. *)
Theorem session_after_failed_submit voter W s s' e :
  (UI.step part001 voter (UI.SubmitForm W) s = Some s' → s' = s)
  ∧ (UI.step part004 voter (UI.SubmitForm W) s = Some s' →
     (result (Part004.handleSubmit voter W s)).1 ≠ Submitted → s' = s)
  ∧ (UI.step part000 voter (UI.SubmitForm W) s = Some s' →
     (∀ msg, (result (Part000.handleSubmit voter W s)).1 ≠ SubmissionError msg) →
     s' = s)
  ∧ (UI.step part000 voter (UI.SubmitForm W) s = Some s' →
     (∃ msg, (result (Part000.handleSubmit voter W s)).1 = SubmissionError msg) →
     UI.step part000 voter e s' = None).
Proof.
  assert (∀ off : bool,
            UI.rendersBallot s && isLastPage s && negb off = true →
            isLoading s = false ∧ error s = None ∧ off = false) as Hgate.
  { intros off [[Hr _]%andb_prop Hoff]%andb_prop.
    unfold UI.rendersBallot in Hr.
    apply andb_prop in Hr as [[Hl He]%andb_prop _].
    split_and!; [by destruct (isLoading s) | by apply bool_decide_eq_true in He
                | by destruct off]. }
  assert (∀ s, isSubmitting s = false → error s = None →
            setIsSubmitting false (setError None (setIsSubmitting true s)) = s)
    as Hsame.
  { intros [] ? ?; simpl in *. by subst. }
  split_and!; simpl; intros Hstep.
  - destruct (UI.rendersBallot s && isLastPage s && negb (Part001.submitDisabled s))
      eqn:Eg; [|done].
    apply Hgate in Eg as (_ & He & Hs). simplify_eq.
    unfold Part001.submitVote. destruct (run _) as [o w]. simpl.
    by apply Hsame.
  - destruct (UI.rendersBallot s && isLastPage s && negb (Part004.submitDisabled s))
      eqn:Eg; [|done].
    apply Hgate in Eg as (_ & He & Hs). simplify_eq.
    apply orb_false_iff in Hs as [Hs _].
    unfold result, Part004.handleSubmit. destruct (run _) as [o w]. simpl.
    intros Ho. destruct o; [done|by apply Hsame..].
  - destruct (UI.rendersBallot s && isLastPage s && negb (Part000.submitDisabled s))
      eqn:Eg; [|done].
    apply Hgate in Eg as (_ & He & Hs). simplify_eq.
    apply orb_false_iff in Hs as [Hs _].
    unfold result, Part000.handleSubmit. destruct (run _) as [o w]. simpl.
    intros Ho. destruct o; [by apply Hsame.. | by destruct (Ho msg)].
  - destruct (UI.rendersBallot s && isLastPage s && negb (Part000.submitDisabled s))
      eqn:Eg; [|done].
    apply Hgate in Eg as (Hl & _ & _). simplify_eq.
    unfold result, Part000.handleSubmit. destruct (run _) as [o w]. simpl.
    intros [msg ->]. apply no_ballot_no_control; [done|].
    unfold UI.rendersBallot. simpl. by rewrite Hl.
Qed.

Lemma session_after_failed_submit_witness :
  UI.step part001 alice (UI.SubmitForm (world 300 (Some 200))) partial
  = Some partial
  ∧ UI.step part004 alice (UI.SubmitForm (world 300 (Some 200))) answered
    = Some answered.
Proof.
  assert (UI.step part001 alice (UI.SubmitForm (world 300 (Some 200))) partial
          = Some (Part001.submitVote alice (world 300 (Some 200)) partial).1.1)
    as E1 by (vm_compute; reflexivity).
  assert (UI.step part004 alice (UI.SubmitForm (world 300 (Some 200))) answered
          = Some (Part004.handleSubmit alice (world 300 (Some 200)) answered).1.1)
    as E4 by (vm_compute; reflexivity).
  assert ((result (Part004.handleSubmit alice (world 300 (Some 200)) answered)).1
          ≠ Submitted) as Hno by (vm_compute; discriminate).
  destruct (session_after_failed_submit alice (world 300 (Some 200)) partial
              (Part001.submitVote alice (world 300 (Some 200)) partial).1.1
              UI.ClickNext) as (H1 & _).
  destruct (session_after_failed_submit alice (world 300 (Some 200)) answered
              (Part004.handleSubmit alice (world 300 (Some 200)) answered).1.1
              UI.ClickNext) as (_ & H4 & _).
  split.
  - rewrite E1. exact (f_equal Some (H1 E1)).
  - rewrite E4. exact (f_equal Some (H4 E4 Hno)).
Defined.

(** ** What the submit handlers send *)

Lemma filter_number_stored (o : JS.Obj) c :
  c ∈ JS.filter_number (JS.Object_values o) → ∃ k, (k, Some c) ∈ o.
Proof.
  unfold JS.filter_number, JS.Object_values.
  rewrite list_elem_of_omap. intros (v & Hv & Hid).
  unfold id in Hid. subst v.
  apply list_elem_of_fmap in Hv as ([k v'] & Hv & Hin). simpl in Hv. subst v'.
  exists k. by rewrite <- (Object_entries_Permutation o).
Qed.

(** X14. For every session, voter and store, a run of the strict submit
    handler ([part_000], [part_002], [part_004]) issues either no write,
    or one [insertVotes] that the store refused, or one accepted
    [insertVotes] followed by one [markVoted] for the submitting voter.
    A batch always has [positions.length] records, all for that voter
    and all with candidates stored in [selections]; the run ends with
    [Submitted] exactly when both writes were issued and accepted. *)
Theorem strict_submit_writes_shape voter W s :
  let '(o, w) := result (Part000.handleSubmit voter W s) in
  (result (Part002.handleSubmit voter W s) = (o, w)
   ∧ result (Part004.handleSubmit voter W s) = (o, w))
  ∧ match w with
    | [] => o ≠ Submitted
    | [Supabase.InsertVotes votes] =>
        wellFormedBatch voter s votes
        ∧ ∃ msg, votes_insert W votes = Some msg ∧ o = SubmissionError msg
    | [Supabase.InsertVotes votes; Supabase.MarkVoted id] =>
        wellFormedBatch voter s votes
        ∧ id = Voter.id voter
        ∧ votes_insert W votes = None
        ∧ (o = Submitted ↔ voters_update W id = None)
    | _ => False
    end.
Proof.
  rewrite Part000_result, Part002_result, Part004_result, run_submitAll.
  destruct (Supabase.error (voting_deadline W)); [done|].
  destruct (votingEnded W _); [done|]. simpl.
  case_bool_decide as Hlen; [|done].
  assert (wellFormedBatch voter s
            (Vote.mk (Voter.id voter)
               <$> JS.filter_number (JS.Object_values (selections s)))) as Hwf.
  { split; [by rewrite length_fmap|].
    apply Forall_fmap, Forall_forall. intros c Hc. simpl.
    split; [done | by apply filter_number_stored]. }
  destruct (votes_insert W _) as [msg|] eqn:Ei.
  - split; [done|]. split; [done|]. by exists msg.
  - split; [done|]. split_and!; [done..|].
    destruct (voters_update W _); split; done.
Qed.

Lemma elem_of_ballot voter s v :
  v ∈ ballot voter s
  ↔ Vote.voter_id v = Voter.id voter
    ∧ ∃ p, p ∈ positions s ∧ holds s p (Vote.candidate_id v).
Proof.
  unfold ballot, holds. rewrite list_elem_of_omap. split.
  - intros (p & Hp & Hv).
    destruct (JS.obj_get (selections s) p) as [[c|]|] eqn:E; simplify_eq/=.
    split; [done|]. by exists p.
  - intros [Hid (p & Hp & Hc)]. exists p. split; [done|].
    rewrite Hc. simpl. destruct v as [i c]. simpl in *. by subst.
Qed.

(** X15. In the permissive revision, on a session keyed by the positions
    and with the deadline test not firing, the batch sent is exactly one
    record per position that holds a candidate (none for an unset or
    skipped position), in some order; it is sent only when it is not
    empty, and [markVoted] follows unless the insert was refused. *)
Theorem permissive_submit_batch voter W s :
  keyed s →
  Part001.votingEnded W (Supabase.data (Supabase.single (voting_deadline W))) = false →
  ∃ votes,
    votes ≡ₚ ballot voter s
    ∧ length votes = selectedCount s
    ∧ (∀ v, v ∈ votes ↔
         Vote.voter_id v = Voter.id voter
         ∧ ∃ p, p ∈ positions s ∧ holds s p (Vote.candidate_id v))
    ∧ result (Part001.submitVote voter W s) =
      let mark := Supabase.MarkVoted (Voter.id voter) in
      let outcome :=
        match voters_update W (Voter.id voter) with
        | Some msg => SubmissionError msg
        | None => Submitted
        end in
      if bool_decide (0 < length votes)%nat then
        match votes_insert W votes with
        | Some msg => (SubmissionError msg, [Supabase.InsertVotes votes])
        | None => (outcome, [Supabase.InsertVotes votes; mark])
        end
      else (outcome, [mark]).
Proof.
  intros Hk Hopen.
  exists (Vote.mk (Voter.id voter)
            <$> JS.filter_number (JS.Object_values (selections s))).
  pose proof (keyed_ballot voter s Hk) as Hperm.
  split_and!; [done | | |].
  - by rewrite length_fmap, selectedCount_filled.
  - intros v. rewrite Hperm. apply elem_of_ballot.
  - rewrite Part001_result, run_submit001, Hopen. simpl.
    destruct (bool_decide _); [|done]. by destruct (votes_insert W _).
Qed.

Lemma permissive_submit_batch_witness :
  ∃ votes,
    votes ≡ₚ [Vote.mk 9 1]
    ∧ result (Part001.submitVote alice (world 100 (Some 200)) partial)
      = (Submitted, [Supabase.InsertVotes votes; Supabase.MarkVoted 9]).
Proof.
  destruct (permissive_submit_batch alice (world 100 (Some 200)) partial
              partial_keyed eq_refl)
    as (votes & Hp & Hl & _ & Hr).
  exists votes. split; [exact Hp|].
  rewrite Hr, Hl. reflexivity.
Defined.

(** ** The login form *)

(** The run of [handleLogin] for credentials that are both filled in,
    branch by branch. *)
Lemma run_login W s :
  Login.run (Login.login W s) =
  let u := Login.username s in
  let p := Login.password s in
  let r := Login.voters W u p in
  match Supabase.error r with
  | Some msg => (Login.Thrown msg, [Login.SelectVoters u p])
  | None =>
      match Supabase.data r with
      | Some (voter :: _) =>
          let d := Login.settings W in
          (match Supabase.error d with
           | Some msg => Login.Thrown msg
           | None =>
               match Supabase.data d with
               | Some (row :: _) =>
                   if JS.truthy (Login.value row)
                      && after (Login.now W) (Login.date row)
                   then Login.Refused "Voting has ended. The deadline has passed."
                   else Login.LoggedIn voter
               | _ => Login.LoggedIn voter
               end
           end, [Login.SelectVoters u p; Login.SelectDeadline])
      | _ =>
          (Login.Refused "Invalid username or password. Please check your credentials.",
           [Login.SelectVoters u p])
      end
  end.
Proof.
  unfold Login.run, Login.login, mbind, Login.Steps_bind, Login.throw_if,
    Login.stop, Login.selectVoters, Login.selectDeadline, mret, Login.Steps_ret.
  simpl.
  destruct (Supabase.error (Login.voters W _ _)); [done|]. simpl.
  destruct (Supabase.data (Login.voters W _ _)) as [[|v vs]|]; [done| |done].
  simpl. destruct (Supabase.error (Login.settings W)); [done|]. simpl.
  destruct (Supabase.data (Login.settings W)) as [[|row rows]|]; [done| |done].
  by destruct (JS.truthy _ && after _ _).
Qed.

Lemma truthy_nonempty (x : string) : JS.truthy x = true ↔ x ≠ "".
Proof. destruct x; simpl; split; done. Qed.

(** X16. With the username or the password left empty, [handleLogin]
    sends no query, shows its message, lets nobody in and does not touch
    the [isLoading] flag. *)
Theorem login_blank_credentials W s :
  Login.username s = "" ∨ Login.password s = "" →
  let '(s', e, q) := Login.handleLogin W s in
  q = []
  ∧ e = Login.Refused "Please enter both username and password."
  ∧ Login.error s' = Some "Please enter both username and password."
  ∧ Login.isLoading s' = Login.isLoading s.
Proof.
  intros Hblank. unfold Login.handleLogin.
  assert (negb (JS.truthy (Login.username s))
          || negb (JS.truthy (Login.password s)) = true) as ->; [|done].
  apply orb_true_iff. destruct Hblank as [-> | ->]; [by left | by right].
Qed.

Lemma login_blank_credentials_witness :
  (Login.handleLogin
     (Login.mkWorld 100 (λ _ _, Supabase.mkResponse (Some [alice]) None)
        (Supabase.mkResponse (Some []) None))
     (Login.mkState "alice" "" None false)).2 = [].
Proof.
  pose proof (login_blank_credentials
                (Login.mkWorld 100 (λ _ _, Supabase.mkResponse (Some [alice]) None)
                   (Supabase.mkResponse (Some []) None))
                (Login.mkState "alice" "" None false) (or_intror eq_refl)) as H.
  exact (proj1 H).
Defined.

(** X17. [handleLogin] lets a voter in only if both fields are filled
    in, the credentials query for exactly these two strings succeeded
    and that voter is its first row, the deadline query succeeded after
    it, and the deadline test did not fire; the form then shows no error
    and is no longer loading. *)
Theorem login_success_inversion W s v :
  (Login.handleLogin W s).1.2 = Login.LoggedIn v →
  Login.username s ≠ "" ∧ Login.password s ≠ ""
  ∧ (Login.handleLogin W s).2
    = [Login.SelectVoters (Login.username s) (Login.password s); Login.SelectDeadline]
  ∧ Supabase.error (Login.voters W (Login.username s) (Login.password s)) = None
  ∧ (∃ rest, Supabase.data (Login.voters W (Login.username s) (Login.password s))
             = Some (v :: rest))
  ∧ Supabase.error (Login.settings W) = None
  ∧ (∀ row rest d,
       Supabase.data (Login.settings W) = Some (row :: rest) →
       Login.value row ≠ "" → Login.date row = Some d → (Login.now W ≤ d)%Z)
  ∧ Login.error (Login.handleLogin W s).1.1 = None
  ∧ Login.isLoading (Login.handleLogin W s).1.1 = false.
Proof.
  unfold Login.handleLogin.
  destruct (negb (JS.truthy (Login.username s))
            || negb (JS.truthy (Login.password s))) eqn:Eb; [done|].
  apply orb_false_iff in Eb as [Hu%negb_false_iff%truthy_nonempty
                                Hp%negb_false_iff%truthy_nonempty].
  rewrite run_login. simpl.
  destruct (Supabase.error (Login.voters W _ _)); [done|].
  destruct (Supabase.data (Login.voters W _ _)) as [[|v' vs]|]; [done| |done].
  destruct (Supabase.error (Login.settings W)); [done|].
  destruct (Supabase.data (Login.settings W)) as [[|row rows]|] eqn:Ed; simpl.
  - intros [= ->]. split_and!; eauto. intros ? ? ? [=].
  - destruct (JS.truthy (Login.value row) && after (Login.now W) (Login.date row))
      eqn:Et; [done|]. simpl.
    intros [= ->]. split_and!; eauto.
    intros row' rest d [= <- <-] Hv%truthy_nonempty Hd.
    rewrite Hv, Hd in Et. simpl in Et. apply bool_decide_eq_false in Et. lia.
  - intros [= ->]. split_and!; eauto. intros ? ? ? [=].
Qed.

Lemma login_success_inversion_witness :
  (Login.handleLogin desk (Login.mkState "alice" "secret" None false)).1.2
    = Login.LoggedIn alice
  ∧ (Login.handleLogin desk (Login.mkState "alice" "secret" None false)).2
    = [Login.SelectVoters "alice" "secret"; Login.SelectDeadline].
Proof.
  destruct (login_success_inversion desk
              (Login.mkState "alice" "secret" None false) alice eq_refl)
    as (_ & _ & Hq & _).
  split; [reflexivity | exact Hq].
Defined.

(** X18. Once the deadline read by the login form has passed (a row with
    a non-empty value whose date lies before the clock), [handleLogin]
    lets nobody in, whatever is typed; with credentials that match a
    voter it shows the message that voting has ended. *)
Theorem login_after_deadline W s row rest d :
  Supabase.error (Login.settings W) = None →
  Supabase.data (Login.settings W) = Some (row :: rest) →
  Login.value row ≠ "" → Login.date row = Some d → (d < Login.now W)%Z →
  (∀ v, (Login.handleLogin W s).1.2 ≠ Login.LoggedIn v)
  ∧ (∀ v vs,
       Login.username s ≠ "" → Login.password s ≠ "" →
       Login.voters W (Login.username s) (Login.password s)
       = Supabase.mkResponse (Some (v :: vs)) None →
       (Login.handleLogin W s).1.2
       = Login.Refused "Voting has ended. The deadline has passed.").
Proof.
  intros He Hd Hv%truthy_nonempty Hdate Hlt.
  assert (JS.truthy (Login.value row) && after (Login.now W) (Login.date row)
          = true) as Hfire.
  { rewrite Hv, Hdate. simpl. by apply bool_decide_eq_true. }
  unfold Login.handleLogin. split.
  - intros v.
    destruct (negb (JS.truthy (Login.username s))
              || negb (JS.truthy (Login.password s))); [done|].
    rewrite run_login. simpl.
    destruct (Supabase.error (Login.voters W _ _)); [done|].
    destruct (Supabase.data (Login.voters W _ _)) as [[|v' vs]|]; [done| |done].
    by rewrite He, Hd, Hfire.
  - intros v vs Hu%truthy_nonempty Hp%truthy_nonempty Hr.
    rewrite Hu, Hp, run_login. simpl. by rewrite Hr, He, Hd, Hfire.
Qed.

Lemma login_after_deadline_witness :
  (Login.handleLogin late (Login.mkState "alice" "secret" None false)).1.2
  = Login.Refused "Voting has ended. The deadline has passed.".
Proof.
  exact (proj2 (login_after_deadline late
                  (Login.mkState "alice" "secret" None false)
                  (Login.mkRow "2025-06-01" (Some 200)) [] 200
                  eq_refl eq_refl ltac:(discriminate) eq_refl
                  ltac:(vm_compute; reflexivity))
           alice [] ltac:(discriminate) ltac:(discriminate) eq_refl).
Defined.

(** X19. After every run of [handleLogin] the typed username and
    password are kept, and the form shows an error exactly when nobody
    was let in; unless a field was empty, the [isLoading] flag is off
    again. *)
Theorem login_error_iff_not_logged_in W s :
  let '(s', e, q) := Login.handleLogin W s in
  Login.username s' = Login.username s
  ∧ Login.password s' = Login.password s
  ∧ (Login.error s' = None ↔ ∃ v, e = Login.LoggedIn v)
  ∧ (q ≠ [] → Login.isLoading s' = false).
Proof.
  unfold Login.handleLogin.
  destruct (negb (JS.truthy (Login.username s))
            || negb (JS.truthy (Login.password s))).
  - split_and!; [done | done | | done]. split; [done | by intros [v ?]].
  - destruct (Login.run (Login.login W s)) as [e q]. simpl.
    destruct e as [v|msg|msg]; simpl; (split_and!; [done | done | | done]).
    + split; [by exists v | done].
    + split; [done | by intros [v ?]].
    + split; [done | by intros [v ?]].
Qed.

Lemma login_error_iff_not_logged_in_witness :
  Login.error (Login.handleLogin desk (Login.mkState "alice" "wrong" None false)).1.1
    ≠ None
  ∧ Login.isLoading
      (Login.handleLogin desk (Login.mkState "alice" "wrong" None true)).1.1 = false.
Proof.
  pose proof (login_error_iff_not_logged_in desk
                (Login.mkState "alice" "wrong" None false)) as H1.
  pose proof (login_error_iff_not_logged_in desk
                (Login.mkState "alice" "wrong" None true)) as H2.
  destruct (Login.handleLogin desk (Login.mkState "alice" "wrong" None false))
    as [[s1 e1] q1] eqn:E1.
  destruct (Login.handleLogin desk (Login.mkState "alice" "wrong" None true))
    as [[s2 e2] q2] eqn:E2.
  destruct H1 as (_ & _ & Hiff & _). destruct H2 as (_ & _ & _ & Hload).
  vm_compute in E1, E2. simplify_eq. split.
  - simpl. intros Hnone. apply Hiff in Hnone as [v Hv]. discriminate Hv.
  - simpl. apply Hload. discriminate.
Defined.


(** ** The application shell *)

Lemma App_step_guarded e s s' : guarded s → App.step e s = Some s' → guarded s'.
Proof.
  unfold guarded, App.step, App.renderView. intros Hg.
  destruct s as [[] [v|]]; destruct e as [v'| |]; simpl in *;
    intros Hs; simplify_eq; simpl; try done;
    try (destruct (Voter.has_voted v') eqn:E; simpl; [done | by eauto]).
  all: by destruct (Hg eq_refl) as (? & ? & ?).
Qed.

Lemma Part005_step_guarded e s s' :
  guarded s → Part005.step e s = Some s' → guarded s'.
Proof.
  unfold guarded, Part005.step, App.renderView. intros Hg.
  destruct s as [[] [v|]]; destruct e as [v'| |]; simpl in *;
    intros Hs; simplify_eq; simpl; try done;
    try (destruct (Voter.has_voted v') eqn:E; simpl; [done | by eauto]).
  all: by destruct (Hg eq_refl) as (? & ? & ?).
Qed.

(** X20. In every reachable state of the application shell (both
    revisions) the view is ['voting'] only with a voter whose
    [has_voted] flag was false at login: the fallback branch of
    [renderView] is never taken, and the ballot is never shown to a
    voter who logged in with [has_voted] set. *)
Theorem ballot_only_for_fresh_voter s :
  App.reachable s ∨ Part005.reachable s →
  (App.renderView s).2 = s
  ∧ (∀ v, (App.renderView s).1 = App.VotingScreen v →
          App.voter s = Some v ∧ Voter.has_voted v = false)
  ∧ (App.view s = App.login → App.voter s = None).
Proof.
  intros Hr.
  assert (guarded s ∧ (App.view s = App.login → App.voter s = None)) as [Hg Hl].
  { destruct Hr as [Hr|Hr]; induction Hr as [|e s s' _ [IHg IHl] Hstep];
      try (split; [by intros ? | done]).
    - split; [by eapply App_step_guarded|].
      unfold App.step, App.renderView in Hstep.
      destruct s as [[] [v|]]; destruct e as [v'| |]; simpl in *;
        simplify_eq; simpl; try done; by destruct (Voter.has_voted v').
    - split; [by eapply Part005_step_guarded|].
      unfold Part005.step, App.renderView in Hstep.
      destruct s as [[] [v|]]; destruct e as [v'| |]; simpl in *;
        simplify_eq; simpl; try done; by destruct (Voter.has_voted v'). }
  unfold guarded in Hg. unfold App.renderView.
  destruct s as [[] [v|]]; simpl in *; split_and!; try done.
  all: try (intros v' [= ->]).
  all: destruct (Hg eq_refl) as (v0 & Hv0 & Hfresh); by simplify_eq.
Qed.

Lemma ballot_only_for_fresh_voter_witness :
  App.renderView (App.handleLoginSuccess alice App.start)
  = (App.VotingScreen alice, App.handleLoginSuccess alice App.start)
  ∧ Voter.has_voted alice = false.
Proof.
  assert (App.reachable (App.handleLoginSuccess alice App.start)) as Hr
    by (apply (App.reach_step (App.LoginSuccess alice) App.start);
        [apply App.reach_start | reflexivity]).
  destruct (ballot_only_for_fresh_voter _ (or_introl Hr)) as (_ & H2 & _).
  split; [reflexivity | exact (proj2 (H2 alice eq_refl))].
Defined.
